(** * Bet_Ledger: odds conversion and bet settlement

    A shallow embedding of [services/odds.py], of the tables of [models.py]
    and of the [new_bet] and [settle_bet] request handlers of [app.py],
    followed by the properties of the specification that concern them.

    Python values are modelled as the interpreter has them: [int] is an
    unbounded integer ([Z]), [float] is an IEEE 754 binary64 number (Rocq's
    primitive [float]), an exception that leaves a function is a [Raise]
    result, and [str] is a [string] of ASCII characters. *)

From Stdlib Require Import ZArith Floats Lia Bool Ascii String List.
From stdpp Require Import base option list gmap strings pretty.

Local Open Scope string_scope.
Local Open Scope Z_scope.

(* ===================================================================== *)
(** * The Python runtime the sources rely on                              *)
(* ===================================================================== *)

Module Py.

(** The exceptions that can leave the modelled code.  [NotFound] is the
    HTTP 404 that [get_or_404] aborts the request with. *)
Inductive exn : Set :=
| ZeroDivisionError
| OverflowError
| ValueError
| NotFound.

Inductive res (A : Type) : Type :=
| Ok (a : A)
| Raise (e : exn).
Arguments Ok {A} a.
Arguments Raise {A} e.

Definition bind {A B} (r : res A) (k : A -> res B) : res B :=
  match r with
  | Ok a => k a
  | Raise e => Raise e
  end.

(** A [for] loop whose body can raise: the first exception ends the loop. *)
Fixpoint for_each {A B} (f : A -> res B) (l : list A) : res (list B) :=
  match l with
  | [] => Ok []
  | x :: l' =>
      bind (f x) (fun y => bind (for_each f l') (fun ys => Ok (y :: ys)))
  end.

Fixpoint fold_each {A S} (f : S -> A -> res S) (l : list A) (s : S) : res S :=
  match l with
  | [] => Ok s
  | x :: l' => bind (f s x) (fold_each f l')
  end.

(** A number as Python stores it in an attribute: an [int] or a [float]. *)
Inductive num : Set :=
| Int (z : Z)
| Float (f : float).

(** ** Floats *)

(** An exact integer as a [spec_float] with exponent 0 (not normalised). *)
Definition Z2SF (z : Z) : spec_float :=
  match z with
  | Z0 => S754_zero false
  | Zpos p => S754_finite false p 0
  | Zneg p => S754_finite true p 0
  end.

(** [float(n)] and the implicit conversion of an [int] operand in mixed
    arithmetic: the nearest binary64 number, ties to even; an [int] too
    large for a float raises [OverflowError]. *)
Definition float_of_int (n : Z) : res float :=
  let f := SF2Prim (binary_normalize prec emax n 0 false) in
  if PrimFloat.is_infinity f then Raise OverflowError else Ok f.

(** An [int] below [2^53 = 9007199254740992] in magnitude is exact as a
    float. *)
Definition small (z : Z) : bool := Z.abs z <? 9007199254740992.

Definition float_of_small (z : Z) : float :=
  let f := PrimFloat.of_uint63 (Uint63.of_Z (Z.abs z)) in
  if z <? 0 then (- f)%float else f.

(** [a / b] on two [int]s: the correctly rounded quotient.  As in
    CPython's [long_true_divide], two operands that are exact as floats
    are divided as floats; the general case rounds the exact quotient, and
    raises [OverflowError] when it is too large for a float. *)
Definition int_truediv (a b : Z) : res float :=
  if b =? 0 then Raise ZeroDivisionError
  else if small a && small b then
    Ok (float_of_small a / float_of_small b)%float
  else
    let f := SF2Prim (SF64div (Z2SF a) (Z2SF b)) in
    if PrimFloat.is_infinity f then Raise OverflowError else Ok f.

(** [x / y] on two [float]s: Python raises where IEEE 754 would return an
    infinity or a NaN for a zero divisor. *)
Definition float_truediv (x y : float) : res float :=
  if PrimFloat.is_zero y then Raise ZeroDivisionError
  else Ok (x / y)%float.

(** The value of a finite float as a fraction [n / d] with [d] a power of
    two: [Some (n, d)], and [None] for an infinity or a NaN. *)
Definition to_fraction (f : float) : option (Z * Z) :=
  match Prim2SF f with
  | S754_zero _ => Some (0, 1)
  | S754_finite s m e =>
      let sm := if s then Zneg m else Zpos m in
      if 0 <=? e then Some (sm * 2 ^ e, 1) else Some (sm, 2 ^ (- e))
  | S754_infinity _ | S754_nan => None
  end.

Definition classify_error (f : float) : exn :=
  if PrimFloat.is_nan f then ValueError else OverflowError.

(** [int(x)] on a float: truncation toward zero, of the magnitude
    [m * 2^e] by a shift. *)
Definition int_of_float (f : float) : res Z :=
  match Prim2SF f with
  | S754_zero _ => Ok 0
  | S754_finite s m e =>
      let a := Z.shiftl (Zpos m) e in
      Ok (if s then - a else a)
  | S754_infinity _ => Raise OverflowError
  | S754_nan => Raise ValueError
  end.

(** The integer nearest to [n / d], for [d > 0]: the floor, or the floor
    plus one when the remainder is above the half, or on a tie when the
    floor is odd. *)
Definition round_half_even (n d : Z) : Z :=
  let q := n / d in
  let r := n mod d in
  match 2 * r ?= d with
  | Lt => q
  | Gt => q + 1
  | Eq => if Z.even q then q else q + 1
  end.

(** [round(x)] on a float, with no [ndigits]: the nearest integer, a tie
    going to the even neighbour ([float.__round__]). *)
Definition round (f : float) : res Z :=
  match to_fraction f with
  | Some (n, d) => Ok (round_half_even n d)
  | None => Raise (classify_error f)
  end.

(** ** Text to numbers: [int(s)] and [float(s)] on a [str]

    The grammar of the language reference, over ASCII text:
    surrounding whitespace is dropped, a sign may come first, digits may be
    separated by single underscores.  [float] also reads a fraction, an
    exponent, and the words inf, infinity and nan in any case. *)

Definition is_space (c : ascii) : bool :=
  let n := N_of_ascii c in
  ((9 <=? n) && (n <=? 13) || (28 <=? n) && (n <=? 32))%N.

Fixpoint lstrip (s : string) : string :=
  match s with
  | String c s' => if is_space c then lstrip s' else s
  | EmptyString => s
  end.

Definition all_space (s : string) : bool := String.eqb (lstrip s) "".

Definition digit_of (c : ascii) : option Z :=
  let n := N_of_ascii c in
  if ((48 <=? n) && (n <=? 57))%N then Some (Z.of_N n - 48) else None.

(** After a first digit: more digits, each possibly after one underscore.
    Returns the number read so far, how many digits, and what is left. *)
Fixpoint digits_tail (acc : Z) (count : Z) (s : string) : Z * Z * string :=
  match s with
  | String c s' =>
      match digit_of c with
      | Some d => digits_tail (10 * acc + d) (count + 1) s'
      | None =>
          if Ascii.eqb c "_" then
            match s' with
            | String c2 s'' =>
                match digit_of c2 with
                | Some d => digits_tail (10 * acc + d) (count + 1) s''
                | None => (acc, count, s)
                end
            | EmptyString => (acc, count, s)
            end
          else (acc, count, s)
      end
  | EmptyString => (acc, count, s)
  end.

Definition digitpart (acc : Z) (s : string) : option (Z * Z * string) :=
  match s with
  | String c s' =>
      match digit_of c with
      | Some d => Some (digits_tail (10 * acc + d) 1 s')
      | None => None
      end
  | EmptyString => None
  end.

Definition sign (s : string) : bool * string :=
  match s with
  | String c s' =>
      if Ascii.eqb c "-" then (true, s')
      else if Ascii.eqb c "+" then (false, s')
      else (false, s)
  | EmptyString => (false, s)
  end.

Definition int_of_string (s : string) : res Z :=
  let '(neg, s1) := sign (lstrip s) in
  match digitpart 0 s1 with
  | Some (v, _, rest) =>
      if all_space rest then Ok (if neg then - v else v)
      else Raise ValueError
  | None => Raise ValueError
  end.

Definition lower (c : ascii) : ascii :=
  let n := N_of_ascii c in
  if ((65 <=? n) && (n <=? 90))%N then ascii_of_N (n + 32) else c.

(** [word] in lower case is a prefix of [s], whatever the case of [s]:
    what follows it. *)
Fixpoint after_word (word s : string) : option string :=
  match word, s with
  | EmptyString, _ => Some s
  | String w word', String c s' =>
      if Ascii.eqb w (lower c) then after_word word' s' else None
  | String _ _, EmptyString => None
  end.

(** [m * 10^e10], correctly rounded; too large a value is an infinity. *)
Definition float_of_decimal (m e10 : Z) : float :=
  if 0 <=? e10 then SF2Prim (binary_normalize prec emax (m * 10 ^ e10) 0 false)
  else SF2Prim (SF64div (Z2SF m) (Z2SF (10 ^ (- e10)))).

(** [number ::= [digitpart] "." digitpart | digitpart ["."]]: the digits
    as one integer, the number of digits after the point, the rest. *)
Definition number (s : string) : option (Z * Z * string) :=
  match digitpart 0 s with
  | Some (ip, _, String "." r) =>
      match digitpart ip r with
      | Some (m, fraclen, rest) => Some (m, fraclen, rest)
      | None => Some (ip, 0, r)
      end
  | Some (ip, _, rest) => Some (ip, 0, rest)
  | None =>
      match s with
      | String "." r => digitpart 0 r
      | _ => None
      end
  end.

(** [exponent ::= ("e" | "E") [sign] digitpart], or nothing. *)
Definition exponent (s : string) : option (Z * string) :=
  match s with
  | String c r =>
      if Ascii.eqb (lower c) "e" then
        let '(neg, r1) := sign r in
        match digitpart 0 r1 with
        | Some (v, _, rest) => Some (if neg then - v else v, rest)
        | None => None
        end
      else Some (0, s)
  | EmptyString => Some (0, s)
  end.

Definition absfloatvalue (s : string) : option (float * string) :=
  match after_word "infinity" s with
  | Some rest => Some (infinity, rest)
  | None =>
  match after_word "inf" s with
  | Some rest => Some (infinity, rest)
  | None =>
  match after_word "nan" s with
  | Some rest => Some (nan, rest)
  | None =>
  match number s with
  | Some (m, fraclen, r) =>
      match exponent r with
      | Some (e, rest) => Some (float_of_decimal m (e - fraclen), rest)
      | None => None
      end
  | None => None
  end end end end.

Definition float_of_string (s : string) : res float :=
  let '(neg, s1) := sign (lstrip s) in
  match absfloatvalue s1 with
  | Some (x, rest) =>
      if all_space rest then Ok (if neg then - x else x)%float
      else Raise ValueError
  | None => Raise ValueError
  end.

End Py.

Import Py.

Notation "x <- c1 ;; c2" := (Py.bind c1 (fun x => c2))
  (at level 100, c1 at next level, right associativity).

(* ===================================================================== *)
(** * services/odds.py                                                    *)
(* ===================================================================== *)

(** [1 + american_odds / 100] for positive odds, [1 + 100 / abs(american_odds)]
    otherwise; the [int] literal [1] is added as the float [1.0]. *)
Definition american_to_decimal (american_odds : Z) : res float :=
  if 0 <? american_odds then
    q <- int_truediv american_odds 100 ;;
    Ok (1 + q)%float
  else
    q <- int_truediv 100 (Z.abs american_odds) ;;
    Ok (1 + q)%float.

Definition decimal_to_american (decimal_odds : float) : res Z :=
  if (2 <=? decimal_odds)%float then
    int_of_float ((decimal_odds - 1) * 100)%float
  else
    q <- float_truediv (-100)%float (decimal_odds - 1)%float ;;
    int_of_float q.

Definition calculate_parlay_payout (stake_cents : Z) (decimal_odds : float)
  : res Z :=
  s <- float_of_int stake_cents ;;
  let payout := (s * decimal_odds)%float in
  round payout.

(* ===================================================================== *)
(** * models.py                                                           *)
(* ===================================================================== *)

(** A [datetime] value; only its identity matters here. *)
Definition timestamp := Z.

Module BetStatus.
Inductive t : Set := OPEN | WON | LOST | VOID | CASHED_OUT.
Definition eqb (a b : t) : bool :=
  match a, b with
  | OPEN, OPEN | WON, WON | LOST, LOST | VOID, VOID
  | CASHED_OUT, CASHED_OUT => true
  | _, _ => false
  end.
Definition terminal (s : t) : bool :=
  match s with WON | LOST | VOID => true | _ => false end.
End BetStatus.

Module LegResult.
Inductive t : Set := PENDING | WON | LOST | VOID.
Definition eqb (a b : t) : bool :=
  match a, b with
  | PENDING, PENDING | WON, WON | LOST, LOST | VOID, VOID => true
  | _, _ => false
  end.
Definition terminal (r : t) : bool := negb (eqb r PENDING).
End LegResult.

Module Person.
Record t : Set := mk { id : Z; name : string }.
End Person.

Module Bet.
Record t : Set := mk {
  id : Z;
  stake_cents : Z;
  status : BetStatus.t;
  placed_at : timestamp;
  settled_at : option timestamp }.
End Bet.

Module BetLeg.
Record t : Set := mk {
  id : Z;
  bet_id : Z;
  matchup : string;
  bet_description : string;
  american_odds : Z;
  result : LegResult.t }.
Definition with_result (leg : t) (r : LegResult.t) : t :=
  mk (id leg) (bet_id leg) (matchup leg) (bet_description leg)
     (american_odds leg) r.
End BetLeg.

Module Settlement.
(** [net_cents] holds whatever number the handler assigned to the
    attribute: the column is declared [db.Integer], the object takes an
    [int] or a [float]. *)
Record t : Set := mk {
  id : Z;
  bet_id : Z;
  person_id : Z;
  net_cents : Py.num;
  ts : timestamp }.
End Settlement.

Module BetParticipant.
Record t : Set := mk {
  id : Z;
  bet_id : Z;
  person_id : Z;
  stake_cents : Z }.
End BetParticipant.

(** The stored state: one list of rows per table, in insertion order.  The
    [transaction] table is left out: neither handler reads or writes it. *)
Module DB.
Record t : Set := mk {
  persons : list Person.t;
  bets : list Bet.t;
  bet_legs : list BetLeg.t;
  bet_participants : list BetParticipant.t;
  settlements : list Settlement.t }.
End DB.

(** The primary key the database gives the next inserted row. *)
Definition fresh_id (ids : list Z) : Z := 1 + fold_right Z.max 0 ids.

(** [request.form]: the submitted fields. *)
Abbreviation form := (gmap string string).

(** [request.form.get(key)] is falsy when the field is absent or empty. *)
Definition truthy (v : option string) : bool :=
  match v with
  | Some s => negb (String.eqb s "")
  | None => false
  end.

(* ===================================================================== *)
(** * app.py: settle_bet                                                  *)
(* ===================================================================== *)

Definition get_or_404 (bet_id : Z) (bets : list Bet.t) : res Bet.t :=
  match find (fun b => Bet.id b =? bet_id) bets with
  | Some b => Ok b
  | None => Raise NotFound
  end.

Definition leg_result_key (leg_id : Z) : string :=
  "leg_" +:+ pretty leg_id +:+ "_result".

(** The body of the first loop of [settle_bet] for one leg. *)
Definition update_leg_result (f : form) (leg : BetLeg.t) : BetLeg.t :=
  let result := f !! leg_result_key (BetLeg.id leg) in
  if truthy result && negb (String.eqb (default "" result) "pending") then
    if String.eqb (default "" result) "won" then
      BetLeg.with_result leg LegResult.WON
    else if String.eqb (default "" result) "lost" then
      BetLeg.with_result leg LegResult.LOST
    else if String.eqb (default "" result) "void" then
      BetLeg.with_result leg LegResult.VOID
    else leg
  else leg.

Definition legs_of (bet_id : Z) (tbl : list BetLeg.t) : list BetLeg.t :=
  List.filter (fun l => BetLeg.bet_id l =? bet_id) tbl.

Definition participants_of (bet_id : Z) (tbl : list BetParticipant.t)
  : list BetParticipant.t :=
  List.filter (fun p => BetParticipant.bet_id p =? bet_id) tbl.

(** The legs table after the first loop: the rows of this bet are the
    objects the loop mutated, the others are untouched. *)
Definition update_legs (f : form) (bet_id : Z) (tbl : list BetLeg.t)
  : list BetLeg.t :=
  map (fun l => if BetLeg.bet_id l =? bet_id then update_leg_result f l else l)
      tbl.

Definition has_result (r : LegResult.t) (legs : list BetLeg.t) : bool :=
  existsb (fun l => LegResult.eqb (BetLeg.result l) r) legs.

Definition all_winning (legs : list BetLeg.t) : bool :=
  forallb (fun l => LegResult.eqb (BetLeg.result l) LegResult.WON
                    || LegResult.eqb (BetLeg.result l) LegResult.VOID) legs.

Definition all_void (legs : list BetLeg.t) : bool :=
  forallb (fun l => LegResult.eqb (BetLeg.result l) LegResult.VOID) legs.

(** [decimal_odds = 1.0], then [decimal_odds *= american_to_decimal(...)]
    for each leg whose result is WON. *)
Definition combined_odds (legs : list BetLeg.t) : res float :=
  fold_each
    (fun decimal_odds leg =>
       if LegResult.eqb (BetLeg.result leg) LegResult.WON then
         d <- american_to_decimal (BetLeg.american_odds leg) ;;
         Ok (decimal_odds * d)%float
       else Ok decimal_odds)
    legs 1%float.

Definition total_stake_of (participants : list BetParticipant.t) : Z :=
  fold_right Z.add 0 (map BetParticipant.stake_cents participants).

(** What a handler hands to [db.session.add]: a Settlement without its
    primary key. *)
Definition new_settlement := (Z * Z * Py.num * timestamp)%type.

(** [net_cents = -participant.stake_cents]. *)
Definition lost_settlement (now : timestamp) (bet_id : Z)
    (p : BetParticipant.t) : new_settlement :=
  (bet_id, BetParticipant.person_id p,
   Py.Int (- BetParticipant.stake_cents p), now).

(** [participant_share = (participant.stake_cents / total_stake) * total_payout]
    and [net_cents = participant_share - participant.stake_cents]. *)
Definition won_net_cents (total_stake total_payout stake_cents : Z)
  : res float :=
  q <- int_truediv stake_cents total_stake ;;
  payout <- float_of_int total_payout ;;
  let participant_share := (q * payout)%float in
  stake <- float_of_int stake_cents ;;
  Ok (participant_share - stake)%float.

Definition won_settlement (now : timestamp) (bet_id total_stake total_payout : Z)
    (p : BetParticipant.t) : res new_settlement :=
  net_cents <- won_net_cents total_stake total_payout
                 (BetParticipant.stake_cents p) ;;
  Ok (bet_id, BetParticipant.person_id p, Py.Float net_cents, now).

(** The business rules: the new status and the Settlement objects added to
    the session, from the legs as updated and the participants. *)
Definition apply_rules (now : timestamp) (bet_id : Z)
    (legs : list BetLeg.t) (participants : list BetParticipant.t)
  : res (BetStatus.t * list new_settlement) :=
  if has_result LegResult.LOST legs then
    Ok (BetStatus.LOST, map (lost_settlement now bet_id) participants)
  else if has_result LegResult.PENDING legs then
    Ok (BetStatus.OPEN, [])
  else if all_winning legs then
    decimal_odds <- combined_odds legs ;;
    let total_stake := total_stake_of participants in
    total_payout <- calculate_parlay_payout total_stake decimal_odds ;;
    rows <- for_each (won_settlement now bet_id total_stake total_payout)
              participants ;;
    Ok (BetStatus.WON, rows)
  else if all_void legs then
    Ok (BetStatus.VOID, [])
  else
    Ok (BetStatus.OPEN, []).

(** The rows of the session get their keys when they are inserted. *)
Fixpoint insert_settlements (tbl : list Settlement.t)
    (rows : list new_settlement) : list Settlement.t :=
  match rows with
  | [] => tbl
  | (bet_id, person_id, net_cents, ts) :: rows' =>
      insert_settlements
        (tbl ++ [Settlement.mk (fresh_id (map Settlement.id tbl))
                   bet_id person_id net_cents ts])
        rows'
  end.

(** [bet.status = status], and [bet.settled_at] only for a status other
    than OPEN. *)
Definition set_status (now : timestamp) (status : BetStatus.t) (bet : Bet.t)
  : Bet.t :=
  Bet.mk (Bet.id bet) (Bet.stake_cents bet) status (Bet.placed_at bet)
    (if BetStatus.eqb status BetStatus.OPEN then Bet.settled_at bet
     else Some now).

(** The row that [get_or_404] returned is the one written back. *)
Fixpoint update_bet (now : timestamp) (status : BetStatus.t) (bet_id : Z)
    (tbl : list Bet.t) : list Bet.t :=
  match tbl with
  | [] => []
  | b :: tbl' =>
      if Bet.id b =? bet_id then set_status now status b :: tbl'
      else b :: update_bet now status bet_id tbl'
  end.

(** POST /bet/<bet_id>/settle.  A raised exception ends the request before
    [db.session.commit()]: nothing of it is stored. *)
Definition settle_bet (now : timestamp) (f : form) (bet_id : Z) (db : DB.t)
  : res DB.t :=
  _ <- get_or_404 bet_id (DB.bets db) ;;
  let leg_rows := update_legs f bet_id (DB.bet_legs db) in
  let legs := legs_of bet_id leg_rows in
  let participants := participants_of bet_id (DB.bet_participants db) in
  outcome <- apply_rules now bet_id legs participants ;;
  let status := fst outcome in
  Ok (DB.mk (DB.persons db)
        (update_bet now status bet_id (DB.bets db))
        leg_rows
        (DB.bet_participants db)
        (insert_settlements (DB.settlements db) (snd outcome))).

(* ===================================================================== *)
(** * app.py: new_bet (POST)                                              *)
(* ===================================================================== *)

Definition leg_field (i : Z) (suffix : string) : string :=
  "leg_" +:+ pretty i +:+ suffix.

Definition person_stake_key (person_id : Z) : string :=
  "person_" +:+ pretty person_id +:+ "_stake".

(** An entry of [legs_data]. *)
Record leg_data : Set := {
  ld_matchup : string;
  ld_bet_description : string;
  ld_american_odds : Z }.

(** An entry of [participants_data]. *)
Record participant_data : Set := {
  pd_person_id : Z;
  pd_stake_cents : Z }.

(** [range(n)]: empty for a negative [n]. *)
Definition range (n : Z) : list Z := map Z.of_nat (seq 0 (Z.to_nat n)).

(** The body of the loop over [range(leg_count)]. *)
Definition read_leg (f : form) (legs_data : list leg_data) (i : Z)
  : res (list leg_data) :=
  let matchup := f !! leg_field i "_matchup" in
  let bet_description := f !! leg_field i "_bet" in
  let american_odds := f !! leg_field i "_odds" in
  if truthy matchup && truthy bet_description && truthy american_odds then
    odds <- int_of_string (default "" american_odds) ;;
    Ok (legs_data ++ [{| ld_matchup := default "" matchup;
                         ld_bet_description := default "" bet_description;
                         ld_american_odds := odds |}])%list
  else Ok legs_data.

(** The body of the loop over the persons: [stake_str] defaults to ['0'];
    a person takes part when [float(stake_str) > 0], with
    [int(float(stake_str) * 100)] cents. *)
Definition read_stake (f : form) (participants_data : list participant_data)
    (person : Person.t) : res (list participant_data) :=
  let stake_str := default "0" (f !! person_stake_key (Person.id person)) in
  if String.eqb stake_str "" then Ok participants_data
  else
    x <- float_of_string stake_str ;;
    if (0 <? x)%float then
      stake_cents <- int_of_float (x * 100)%float ;;
      Ok (participants_data ++ [{| pd_person_id := Person.id person;
                                   pd_stake_cents := stake_cents |}])%list
    else Ok participants_data.

Fixpoint insert_participants (tbl : list BetParticipant.t) (bet_id : Z)
    (rows : list participant_data) : list BetParticipant.t :=
  match rows with
  | [] => tbl
  | r :: rows' =>
      insert_participants
        (tbl ++ [BetParticipant.mk (fresh_id (map BetParticipant.id tbl))
                   bet_id (pd_person_id r) (pd_stake_cents r)])
        bet_id rows'
  end.

Fixpoint insert_legs (tbl : list BetLeg.t) (bet_id : Z)
    (rows : list leg_data) : list BetLeg.t :=
  match rows with
  | [] => tbl
  | r :: rows' =>
      insert_legs
        (tbl ++ [BetLeg.mk (fresh_id (map BetLeg.id tbl)) bet_id
                   (ld_matchup r) (ld_bet_description r) (ld_american_odds r)
                   LegResult.PENDING])
        bet_id rows'
  end.

(** How a POST to /bet/new ends: a flashed error and nothing stored, or the
    new bet and the state that holds it. *)
Inductive new_bet_response : Set :=
| Rejected (message : string)
| Created (bet_id : Z) (db : DB.t).

Definition new_bet (now : timestamp) (f : form) (db : DB.t)
  : res new_bet_response :=
  leg_count <- match f !! "leg_count" with
               | Some s => int_of_string s
               | None => Ok 0
               end ;;
  legs_data <- fold_each (read_leg f) (range leg_count) [] ;;
  if decide (legs_data = []) then
    Ok (Rejected "At least one bet leg is required")
  else
    participants_data <- fold_each (read_stake f) (DB.persons db) [] ;;
    let total_stake := fold_right Z.add 0 (map pd_stake_cents participants_data) in
    if decide (participants_data = []) then
      Ok (Rejected "At least one participant is required")
    else if total_stake =? 0 then
      Ok (Rejected "Total stake must be greater than 0")
    else
      let bet_id := fresh_id (map Bet.id (DB.bets db)) in
      let bet := Bet.mk bet_id total_stake BetStatus.OPEN now None in
      Ok (Created bet_id
            (DB.mk (DB.persons db)
               (DB.bets db ++ [bet])
               (insert_legs (DB.bet_legs db) bet_id legs_data)
               (insert_participants (DB.bet_participants db) bet_id
                  participants_data)
               (DB.settlements db))).

(* ===================================================================== *)
(** * Sample data                                                         *)
(* ===================================================================== *)

Module Sample.

Definition people : list Person.t :=
  [Person.mk 1 "Ryan"; Person.mk 2 "Friend"].

(** One bet of 100.00 on a single leg at +150, staked 33.33 and
    66.67. *)
Definition single (r : LegResult.t) (st : BetStatus.t) : DB.t :=
  DB.mk people
    [Bet.mk 1 10000 st 0 None]
    [BetLeg.mk 1 1 "A v B" "A ML" 150 r]
    [BetParticipant.mk 1 1 1 3333; BetParticipant.mk 2 1 2 6667]
    [].

(** One open two-leg parlay, +150 and -200, staked 60.00 and 40.00. *)
Definition parlay (r1 r2 : LegResult.t) : DB.t :=
  DB.mk people
    [Bet.mk 1 10000 BetStatus.OPEN 0 None]
    [BetLeg.mk 1 1 "A v B" "A ML" 150 r1;
     BetLeg.mk 2 1 "C v D" "C ML" (-200) r2]
    [BetParticipant.mk 1 1 1 6000; BetParticipant.mk 2 1 2 4000]
    [].


Definition submit (leg_id : Z) (token : string) : form :=
  {[ leg_result_key leg_id := token ]}.

(** No bet yet. *)
Definition empty : DB.t := DB.mk people [] [] [] [].

(** The fields of the new-bet form: one leg at -110, and a stake for each
    of the two persons. *)
Definition new_bet_form (stake1 stake2 : string) : form :=
  list_to_map
    [("leg_count", "1"); ("leg_0_matchup", "A v B"); ("leg_0_bet", "A ML");
     ("leg_0_odds", "-110");
     (person_stake_key 1, stake1); (person_stake_key 2, stake2)].

End Sample.

(* ===================================================================== *)
(** * Vocabulary of the statements                                        *)
(* ===================================================================== *)

(** The stored row of a bet. *)
Definition bet_row (bet_id : Z) (db : DB.t) : option Bet.t :=
  find (fun b => Bet.id b =? bet_id) (DB.bets db).

(** A stored Settlement row carries what the handler added, and a key. *)
Definition stored_as (r : new_settlement) (s : Settlement.t) : Prop :=
  (Settlement.bet_id s, Settlement.person_id s, Settlement.net_cents s,
   Settlement.ts s) = r.

(** The legs of the bet as the rules see them: after the submitted updates. *)
Definition legs_after (f : form) (bet_id : Z) (db : DB.t) : list BetLeg.t :=
  legs_of bet_id (update_legs f bet_id (DB.bet_legs db)).

(** The result a leg ends with, from the submitted token and the result
    it had. *)
Definition submitted_result (token : option string) (prior : LegResult.t)
  : LegResult.t :=
  if decide (token = Some "won") then LegResult.WON
  else if decide (token = Some "lost") then LegResult.LOST
  else if decide (token = Some "void") then LegResult.VOID
  else prior.





(** [z] is the integer nearest to [n / d], the even one of the two when
    [n / d] lies halfway. *)
Definition nearest_even (n d z : Z) : Prop :=
  2 * Z.abs (z * d - n) <= d
  /\ (2 * Z.abs (z * d - n) = d -> Z.even z = true).

(** A call fails by the division itself, not by a validation of its input,
    when what leaves it is the [ZeroDivisionError] of [/]. *)
Definition fails_by_division {A} (r : res A) : Prop :=
  r = Raise ZeroDivisionError.




(** The float [1.0], and the least exponent of a binary64 number. *)
Definition SF_one : spec_float := S754_finite false 4503599627370496 (-52).
Definition emin64 : Z := -1074.

(* ===================================================================== *)
(** * app.py: bet_detail and bet_preview                                  *)
(* ===================================================================== *)

(** GET /bet/<bet_id>: what the page is rendered from. *)
Definition bet_detail (bet_id : Z) (db : DB.t)
  : res (Bet.t * list BetLeg.t * list BetParticipant.t) :=
  bet <- get_or_404 bet_id (DB.bets db) ;;
  Ok (bet, legs_of bet_id (DB.bet_legs db),
      participants_of bet_id (DB.bet_participants db)).

(** The body of the loop over the persons in [bet_preview]: the same test
    and the same cents as in [new_bet], added to the running total. *)
Definition preview_stake (f : form) (total_stake_cents : Z) (person : Person.t)
  : res Z :=
  let stake_str := default "0" (f !! person_stake_key (Person.id person)) in
  if String.eqb stake_str "" then Ok total_stake_cents
  else
    x <- float_of_string stake_str ;;
    if (0 <? x)%float then
      stake_cents <- int_of_float (x * 100)%float ;;
      Ok (total_stake_cents + stake_cents)
    else Ok total_stake_cents.

(** The body of the loop over [range(leg_count)] in [bet_preview]: only the
    odds field of a leg is read. *)
Definition preview_leg (f : form) (decimal_odds : float) (i : Z) : res float :=
  let american_odds := f !! leg_field i "_odds" in
  if truthy american_odds then
    a <- int_of_string (default "" american_odds) ;;
    d <- american_to_decimal a ;;
    Ok (decimal_odds * d)%float
  else Ok decimal_odds.

(** The two ways [bet_preview] renders its template: with a payout of 0
    when nothing is staked, or with the payout in cents and in dollars and
    the combined American odds ([None] when the combined decimal odds are
    not above 1.0). *)
Inductive preview : Set :=
| NoStake
| Payout (potential_payout_cents : Z) (potential_payout_dollars : float)
         (total_american_odds : option Z).

(** POST /bet/preview. *)
Definition bet_preview (f : form) (db : DB.t) : res preview :=
  total_stake_cents <- fold_each (preview_stake f) (DB.persons db) 0 ;;
  if total_stake_cents =? 0 then Ok NoStake
  else
    leg_count <- match f !! "leg_count" with
                 | Some s => int_of_string s
                 | None => Ok 0
                 end ;;
    decimal_odds <- fold_each (preview_leg f) (range leg_count) 1%float ;;
    potential_payout <- calculate_parlay_payout total_stake_cents decimal_odds ;;
    total_american_odds <-
      (if (1 <? decimal_odds)%float then
         a <- decimal_to_american decimal_odds ;; Ok (Some a)
       else Ok None) ;;
    dollars <- int_truediv potential_payout 100 ;;
    Ok (Payout potential_payout dollars total_american_odds).

(* ===================================================================== *)
(** * app.py: dashboard, the open bets and the exposure                   *)
(* ===================================================================== *)

(** [decimal_odds = 1.0], then [decimal_odds *= american_to_decimal(...)]
    for every leg, whatever its result. *)
Definition potential_odds (legs : list BetLeg.t) : res float :=
  fold_each
    (fun decimal_odds leg =>
       leg_decimal <- american_to_decimal (BetLeg.american_odds leg) ;;
       Ok (decimal_odds * leg_decimal)%float)
    legs 1%float.

(** An entry of [open_bets_data]. *)
Record open_bet_data : Set := {
  obd_bet : Bet.t;
  obd_legs : list BetLeg.t;
  obd_participants : list BetParticipant.t;
  obd_total_stake_cents : Z;
  obd_total_stake_dollars : float;
  obd_potential_payout_cents : Z;
  obd_potential_payout_dollars : float }.

(** The body of the loop over the open bets in [dashboard]. *)
Definition open_bet_entry (bet : Bet.t) (db : DB.t) : res open_bet_data :=
  let legs := legs_of (Bet.id bet) (DB.bet_legs db) in
  let participants := participants_of (Bet.id bet) (DB.bet_participants db) in
  decimal_odds <- potential_odds legs ;;
  let total_stake := total_stake_of participants in
  potential_payout <- calculate_parlay_payout total_stake decimal_odds ;;
  stake_dollars <- int_truediv total_stake 100 ;;
  payout_dollars <- int_truediv potential_payout 100 ;;
  Ok {| obd_bet := bet;
        obd_legs := legs;
        obd_participants := participants;
        obd_total_stake_cents := total_stake;
        obd_total_stake_dollars := stake_dollars;
        obd_potential_payout_cents := potential_payout;
        obd_potential_payout_dollars := payout_dollars |}.

(** The rows of [BetParticipant JOIN Bet] whose bet is OPEN: a participant
    row once per OPEN bet row with its [bet_id]. *)
Definition open_participations (db : DB.t) : list BetParticipant.t :=
  flat_map
    (fun p =>
       map (fun _ => p)
         (List.filter
            (fun b => (Bet.id b =? BetParticipant.bet_id p)
                      && BetStatus.eqb (Bet.status b) BetStatus.OPEN)
            (DB.bets db)))
    (DB.bet_participants db).

(** [func.sum(...)] is NULL over no row. *)
Definition sql_sum (values : list Z) : option Z :=
  match values with
  | [] => None
  | _ => Some (fold_right Z.add 0 values)
  end.

(** [.scalar() or 0]. *)
Definition or_zero (v : option Z) : Z :=
  match v with
  | Some x => if x =? 0 then 0 else x
  | None => 0
  end.

(** [open_bet_total] of a person: the exposure column of the dashboard. *)
Definition open_bet_total (person : Person.t) (db : DB.t) : Z :=
  or_zero
    (sql_sum
       (map BetParticipant.stake_cents
          (List.filter
             (fun p => BetParticipant.person_id p =? Person.id person)
             (open_participations db)))).

(** [total_exposure]. *)
Definition total_exposure (db : DB.t) : Z :=
  or_zero (sql_sum (map BetParticipant.stake_cents (open_participations db))).

(* ===================================================================== *)
(** * app.py: edit_person (POST)                                          *)
(* ===================================================================== *)

(** [str.rstrip()] and [str.strip()], on whitespace. *)
Fixpoint rstrip (s : string) : string :=
  match s with
  | String c s' =>
      let r := rstrip s' in
      if String.eqb r "" && Py.is_space c then "" else String c r
  | EmptyString => ""
  end.






(* ===================================================================== *)
(** * db.py: seed_db                                                      *)
(* ===================================================================== *)

(** Nothing is done when a person exists; otherwise Ryan and Friend are
    added, in this order. *)
Definition seed_db (db : DB.t) : DB.t :=
  if (0 <? length (DB.persons db))%nat then db
  else
    let ryan := Person.mk (fresh_id (map Person.id (DB.persons db))) "Ryan" in
    let with_ryan := (DB.persons db ++ [ryan])%list in
    let friend := Person.mk (fresh_id (map Person.id with_ryan)) "Friend" in
    DB.mk (with_ryan ++ [friend])%list (DB.bets db) (DB.bet_legs db)
      (DB.bet_participants db) (DB.settlements db).

(* ===================================================================== *)
(** * app.py: normalize_enums                                             *)
(* ===================================================================== *)

(** The three columns the routine rewrites, as the text the database
    holds: [bet.status], [bet_leg.result] and [transaction.type]. *)
Record enum_columns : Set := {
  bet_status_text : list string;
  bet_leg_result_text : list string;
  transaction_type_text : list string }.

(** [UPDATE t SET c = :new WHERE c = :old] on one column. *)
Definition sql_update (old new : string) (column : list string) : list string :=
  map (fun v => if String.eqb v old then new else v) column.

(** [for old, new in mappings: UPDATE ...], in the order of the list. *)
Definition run_updates (mappings : list (string * string))
    (column : list string) : list string :=
  fold_left (fun col m => sql_update (fst m) (snd m) col) mappings column.

Definition mappings : list (string * string) :=
  [("open", "OPEN"); ("won", "WON"); ("lost", "LOST"); ("void", "VOID");
   ("cashed_out", "CASHED_OUT")].

Definition mappings_leg : list (string * string) :=
  [("pending", "PENDING"); ("won", "WON"); ("lost", "LOST"); ("void", "VOID")].

Definition mappings_tx : list (string * string) :=
  [("deposit", "DEPOSIT"); ("withdraw", "WITHDRAW");
   ("adjustment", "ADJUSTMENT")].

(** The statements inside the [try], when none of them fails; a failure
    rolls all of them back and is ignored. *)
Definition normalize_enums (c : enum_columns) : enum_columns :=
  {| bet_status_text := run_updates mappings (bet_status_text c);
     bet_leg_result_text := run_updates mappings_leg (bet_leg_result_text c);
     transaction_type_text := run_updates mappings_tx (transaction_type_text c) |}.

(* ===================================================================== *)
(** * Vocabulary of the further statements                                *)
(* ===================================================================== *)

(** Referential integrity, as the foreign keys of [models.py] declare it:
    every leg and every participant belongs to a stored bet. *)
Definition legs_reference_bets (db : DB.t) : Prop :=
  Forall (fun l => In (BetLeg.bet_id l) (map Bet.id (DB.bets db)))
    (DB.bet_legs db).

Definition participants_reference_bets (db : DB.t) : Prop :=
  Forall (fun p => In (BetParticipant.bet_id p) (map Bet.id (DB.bets db)))
    (DB.bet_participants db).

(** The legacy value a mapping list rewrites to [new], if any. *)
Definition canonical (ms : list (string * string)) (v : string) : string :=
  match find (fun m => String.eqb v (fst m)) ms with
  | Some m => snd m
  | None => v
  end.

(** The sum of the [net_cents] of rows that all hold an [int]. *)
Fixpoint int_total (nets : list Py.num) : option Z :=
  match nets with
  | [] => Some 0
  | Py.Int z :: nets' => option_map (Z.add z) (int_total nets')
  | Py.Float _ :: _ => None
  end.

(** The status the rules give, from the legs alone. *)
Definition status_of_legs (legs : list BetLeg.t) : BetStatus.t :=
  if has_result LegResult.LOST legs then BetStatus.LOST
  else if has_result LegResult.PENDING legs then BetStatus.OPEN
  else BetStatus.WON.

(** More sample data: a bet on one leg stored with odds 0. *)
Module Sample2.


End Sample2.

(** Case analysis on the text [v], against each literal it is compared
    with. *)
Ltac by_cases_on v :=
  repeat match goal with
         | |- context [String.eqb v ?s] =>
             destruct (String.eqb_spec v s) as [->|?]; simpl;
             try reflexivity
         end.

(* ===================================================================== *)
(** * Facts about the runtime model                                       *)
(* ===================================================================== *)

Lemma bind_Ok {A B} (r : res A) (k : A -> res B) (b : B) :
  Py.bind r k = Ok b -> exists a, r = Ok a /\ k a = Ok b.
Proof. destruct r as [a|e]; simpl; [eauto | discriminate]. Qed.


Lemma for_each_Forall2 {A B} (g : A -> res B) (l : list A) (l' : list B) :
  for_each g l = Ok l' -> Forall2 (fun x y => g x = Ok y) l l'.
Proof.
  revert l'. induction l as [|x l IH]; simpl; intros l' H.
  - inversion H. constructor.
  - apply bind_Ok in H as (y & Hy & H).
    apply bind_Ok in H as (ys & Hys & H).
    inversion H; subst. constructor; auto.
Qed.

(* ===================================================================== *)
(** * Facts about the tables                                              *)
(* ===================================================================== *)

Lemma insert_settlements_app (rows : list new_settlement) :
  forall tbl, exists added,
    insert_settlements tbl rows = (tbl ++ added)%list
    /\ Forall2 stored_as rows added.
Proof.
  induction rows as [|[[[b p] n] t] rows IH]; intros tbl; simpl.
  - exists []. split; [now rewrite app_nil_r | constructor].
  - destruct (IH (tbl ++ [Settlement.mk (fresh_id (map Settlement.id tbl)) b p n t])%list)
      as (added & Heq & Hall).
    eexists (_ :: added). split.
    + rewrite Heq, <- app_assoc. reflexivity.
    + constructor; [reflexivity | exact Hall].
Qed.

Lemma find_update_bet now st bet_id tbl b :
  find (fun b => Bet.id b =? bet_id) tbl = Some b ->
  find (fun b => Bet.id b =? bet_id) (update_bet now st bet_id tbl)
  = Some (set_status now st b).
Proof.
  induction tbl as [|x tbl IH]; simpl; [discriminate|].
  destruct (Bet.id x =? bet_id) eqn:E; intros H.
  - inversion H; subst. simpl. now rewrite E.
  - simpl. rewrite E. auto.
Qed.

Lemma update_bet_id now st bet_id tbl b :
  find (fun b => Bet.id b =? bet_id) tbl = Some b ->
  set_status now st b = b ->
  update_bet now st bet_id tbl = tbl.
Proof.
  induction tbl as [|x tbl IH]; simpl; [discriminate|].
  destruct (Bet.id x =? bet_id) eqn:E; intros H Hs.
  - inversion H; subst. now rewrite Hs.
  - f_equal. auto.
Qed.

Lemma get_or_404_found bet_id bets b :
  find (fun b => Bet.id b =? bet_id) bets = Some b ->
  get_or_404 bet_id bets = Ok b.
Proof. unfold get_or_404. now intros ->. Qed.

(* ===================================================================== *)
(** * settle_bet: the LOST and the OPEN outcome                           *)
(* ===================================================================== *)

Lemma settle_bet_unfold now f bet_id db bet :
  bet_row bet_id db = Some bet ->
  settle_bet now f bet_id db =
  (outcome <- apply_rules now bet_id (legs_after f bet_id db)
                (participants_of bet_id (DB.bet_participants db)) ;;
   Ok (DB.mk (DB.persons db)
         (update_bet now (fst outcome) bet_id (DB.bets db))
         (update_legs f bet_id (DB.bet_legs db))
         (DB.bet_participants db)
         (insert_settlements (DB.settlements db) (snd outcome)))).
Proof.
  intros H. unfold settle_bet. rewrite (get_or_404_found _ _ _ H). reflexivity.
Qed.

(** C4.  When a leg of the bet is LOST after the submitted updates, the
    settlement succeeds whatever the other legs, the odds and the stakes are
    (no payout is computed): the bet is stored with status LOST and, after
    the Settlement rows that were there, exactly one new row per participant
    of the bet, in order, with the participant's person and
    [net_cents = - stake_cents]. *)
Theorem settle_bet_any_leg_lost now f bet_id db bet :
  bet_row bet_id db = Some bet ->
  has_result LegResult.LOST (legs_after f bet_id db) = true ->
  exists db' added,
    settle_bet now f bet_id db = Ok db'
    /\ (exists bet', bet_row bet_id db' = Some bet'
                     /\ Bet.status bet' = BetStatus.LOST)
    /\ DB.settlements db' = (DB.settlements db ++ added)%list
    /\ Forall2
         (fun p s =>
            Settlement.bet_id s = bet_id
            /\ Settlement.person_id s = BetParticipant.person_id p
            /\ Settlement.net_cents s = Py.Int (- BetParticipant.stake_cents p))
         (participants_of bet_id (DB.bet_participants db)) added.
Proof.
  intros Hbet Hlost.
  rewrite (settle_bet_unfold _ _ _ _ _ Hbet).
  unfold apply_rules. rewrite Hlost. simpl.
  destruct (insert_settlements_app
              (map (lost_settlement now bet_id)
                 (participants_of bet_id (DB.bet_participants db)))
              (DB.settlements db)) as (added & Heq & Hall).
  eexists _, added. split; [reflexivity|]. split; [|split].
  - exists (set_status now BetStatus.LOST bet). split; [|reflexivity].
    unfold bet_row in *. simpl. now apply find_update_bet.
  - simpl. exact Heq.
  - clear Heq. revert added Hall.
    induction (participants_of bet_id (DB.bet_participants db)) as [|p ps IH];
      simpl; intros added Hall; inversion Hall; subst; constructor.
    + match goal with H : stored_as _ _ |- _ => unfold stored_as, lost_settlement in H;
        inversion H end. auto.
    + apply IH. assumption.
Qed.

Lemma settle_bet_any_leg_lost_witness :
  exists db' added,
    settle_bet 5 (Sample.submit 2 "lost") 1
      (Sample.parlay LegResult.PENDING LegResult.PENDING) = Ok db'
    /\ (exists bet', bet_row 1 db' = Some bet'
                     /\ Bet.status bet' = BetStatus.LOST)
    /\ DB.settlements db' =
       (DB.settlements (Sample.parlay LegResult.PENDING LegResult.PENDING) ++ added)%list
    /\ Forall2
         (fun p s =>
            Settlement.bet_id s = 1
            /\ Settlement.person_id s = BetParticipant.person_id p
            /\ Settlement.net_cents s = Py.Int (- BetParticipant.stake_cents p))
         (participants_of 1
            (DB.bet_participants (Sample.parlay LegResult.PENDING LegResult.PENDING)))
         added.
Proof.
  apply (settle_bet_any_leg_lost 5 (Sample.submit 2 "lost") 1
           (Sample.parlay LegResult.PENDING LegResult.PENDING)
           (Bet.mk 1 10000 BetStatus.OPEN 0 None)).
  - reflexivity.
  - vm_compute. reflexivity.
Defined.



(* ===================================================================== *)
(** * settle_bet: which leg results are written                           *)
(* ===================================================================== *)

Lemma update_leg_result_spec f leg :
  update_leg_result f leg =
  BetLeg.with_result leg
    (submitted_result (f !! leg_result_key (BetLeg.id leg)) (BetLeg.result leg)).
Proof.
  unfold update_leg_result, submitted_result.
  destruct (f !! leg_result_key (BetLeg.id leg)) as [tok|]; simpl.
  - repeat case_decide; simplify_eq; simpl; try reflexivity;
      try (destruct leg; reflexivity).
    destruct (String.eqb_spec tok ""); simpl; [destruct leg; reflexivity|].
    destruct (String.eqb_spec tok "pending"); simpl; [destruct leg; reflexivity|].
    destruct (String.eqb_spec tok "won"); [congruence|].
    destruct (String.eqb_spec tok "lost"); [congruence|].
    destruct (String.eqb_spec tok "void"); [congruence|].
    destruct leg; reflexivity.
  - repeat case_decide; try discriminate. destruct leg; reflexivity.
Qed.

Lemma settle_bet_legs now f bet_id db db' :
  settle_bet now f bet_id db = Ok db' ->
  DB.bet_legs db' = update_legs f bet_id (DB.bet_legs db).
Proof.
  unfold settle_bet. intros H.
  apply bind_Ok in H as (b & _ & H).
  apply bind_Ok in H as (o & _ & H).
  inversion H. reflexivity.
Qed.

(** C8, as the code has it.  A settlement that is stored changes nothing of
    a leg but its result, and nothing of the legs of other bets.  A leg of
    the bet for which "won", "lost" or "void" is submitted gets that result
    whatever result it had, PENDING or not; with no token, an empty one,
    "pending" or any other text it keeps the result it had. *)
Theorem settle_bet_leg_results now f bet_id db db' :
  settle_bet now f bet_id db = Ok db' ->
  Forall2
    (fun l l' =>
       let token := f !! leg_result_key (BetLeg.id l) in
       BetLeg.with_result l' (BetLeg.result l) = l
       /\ (BetLeg.bet_id l <> bet_id -> l' = l)
       /\ (BetLeg.bet_id l = bet_id ->
           (token = Some "won" -> BetLeg.result l' = LegResult.WON)
           /\ (token = Some "lost" -> BetLeg.result l' = LegResult.LOST)
           /\ (token = Some "void" -> BetLeg.result l' = LegResult.VOID)
           /\ (token <> Some "won" -> token <> Some "lost" ->
               token <> Some "void" -> BetLeg.result l' = BetLeg.result l)))
    (DB.bet_legs db) (DB.bet_legs db').
Proof.
  intros H. rewrite (settle_bet_legs _ _ _ _ _ H). clear H.
  unfold update_legs.
  induction (DB.bet_legs db) as [|l ls IH]; simpl; constructor; [|exact IH].
  destruct (Z.eqb_spec (BetLeg.bet_id l) bet_id) as [E|E].
  - rewrite update_leg_result_spec. unfold submitted_result.
    split; [destruct l; reflexivity|]. split; [congruence|]. intros _.
    repeat case_decide; simpl; repeat split; intros; congruence.
  - split; [destruct l; reflexivity|]. split; [reflexivity|]. congruence.
Qed.

Lemma settle_bet_leg_results_witness :
  exists db',
    settle_bet 5 (Sample.submit 2 "void") 1
      (Sample.parlay LegResult.WON LegResult.LOST) = Ok db'
    /\ map BetLeg.result (DB.bet_legs db') = [LegResult.WON; LegResult.VOID]
    /\ Forall2
         (fun l l' =>
            let token := Sample.submit 2 "void" !! leg_result_key (BetLeg.id l) in
            BetLeg.with_result l' (BetLeg.result l) = l
            /\ (BetLeg.bet_id l <> 1 -> l' = l)
            /\ (BetLeg.bet_id l = 1 ->
                (token = Some "won" -> BetLeg.result l' = LegResult.WON)
                /\ (token = Some "lost" -> BetLeg.result l' = LegResult.LOST)
                /\ (token = Some "void" -> BetLeg.result l' = LegResult.VOID)
                /\ (token <> Some "won" -> token <> Some "lost" ->
                    token <> Some "void" ->
                    BetLeg.result l' = BetLeg.result l)))
         (DB.bet_legs (Sample.parlay LegResult.WON LegResult.LOST))
         (DB.bet_legs db').
Proof.
  eexists. split; [vm_compute; reflexivity|]. split; [reflexivity|].
  apply (settle_bet_leg_results 5 (Sample.submit 2 "void") 1
           (Sample.parlay LegResult.WON LegResult.LOST)).
  vm_compute. reflexivity.
Defined.

(** C8 as stated fails: a leg that is already WON is overwritten by a
    submitted "lost". *)
Lemma settle_bet_overwrites_terminal_leg :
  exists db',
    settle_bet 5 (Sample.submit 1 "lost") 1
      (Sample.single LegResult.WON BetStatus.OPEN) = Ok db'
    /\ map BetLeg.result
         (DB.bet_legs (Sample.single LegResult.WON BetStatus.OPEN))
       = [LegResult.WON]
    /\ LegResult.terminal LegResult.WON = true
    /\ map BetLeg.result (DB.bet_legs db') = [LegResult.LOST].
Proof. eexists. split; [vm_compute; reflexivity|]. repeat split. Qed.

(* ===================================================================== *)
(** * settle_bet: the status the bet had plays no part                    *)
(* ===================================================================== *)






(* ===================================================================== *)
(** * calculate_parlay_payout: the rounding                               *)
(* ===================================================================== *)

Lemma to_fraction_pos f n d : to_fraction f = Some (n, d) -> 0 < d.
Proof.
  unfold to_fraction.
  destruct (Prim2SF f) as [s|s| |s m e]; try discriminate.
  - intros H. inversion H. lia.
  - destruct (0 <=? e) eqn:E; intros H; inversion H; subst; [lia|].
    apply Z.leb_gt in E. apply Z.pow_pos_nonneg; lia.
Qed.

Lemma round_half_even_nearest n d :
  0 < d -> nearest_even n d (round_half_even n d).
Proof.
  intros Hd. unfold nearest_even, round_half_even.
  pose proof (Z.div_mod n d ltac:(lia)) as Hdm.
  pose proof (Z.mod_pos_bound n d Hd) as Hr.
  set (q := n / d) in *. set (r := n mod d) in *.
  destruct (Z.compare_spec (2 * r) d) as [E|E|E].
  - destruct (Z.even q) eqn:Hq.
    + split; [nia | intros _; exact Hq].
    + split; [nia | intros _].
      rewrite Z.even_add, Hq. reflexivity.
  - split; nia.
  - split; nia.
Qed.

(** C2, as the code has it.  Whenever the stake converts to a float and the
    float product [stake_cents * decimal_odds] is finite, with exact value
    [n / d], [calculate_parlay_payout] returns the integer nearest to that
    value, and the even one of the two nearest when the value lies exactly
    halfway: 4.5 gives 4.  This holds for every stake and every odds, so for
    the nonnegative stakes and the odds of at least 1.0 of the claim. *)
Theorem calculate_parlay_payout_nearest_even stake_cents decimal_odds s n d :
  float_of_int stake_cents = Ok s ->
  to_fraction (s * decimal_odds)%float = Some (n, d) ->
  exists z,
    calculate_parlay_payout stake_cents decimal_odds = Ok z
    /\ 0 < d
    /\ nearest_even n d z.
Proof.
  intros Hs Hf. unfold calculate_parlay_payout, Py.round.
  rewrite Hs. simpl. rewrite Hf.
  pose proof (to_fraction_pos _ _ _ Hf) as Hd.
  eexists. split; [reflexivity|]. split; [exact Hd|].
  now apply round_half_even_nearest.
Qed.

Lemma calculate_parlay_payout_nearest_even_witness :
  exists z,
    calculate_parlay_payout 5 1.5%float = Ok z
    /\ 0 < 2 ^ 50
    /\ nearest_even (15 * 2 ^ 49) (2 ^ 50) z.
Proof.
  apply (calculate_parlay_payout_nearest_even 5 1.5%float 5%float
           (15 * 2 ^ 49) (2 ^ 50)).
  - vm_compute. reflexivity.
  - vm_compute. reflexivity.
Defined.

(** C2 as stated fails: 3 cents at odds 1.5 make the product 4.5, and the
    payout is 4, not the 5 of rounding halves away from zero. *)
Lemma calculate_parlay_payout_half_to_even :
  float_of_int 3 = Ok 3%float
  /\ (3 * 1.5 = 4.5)%float
  /\ to_fraction 4.5%float = Some (9 * 2 ^ 49, 2 * 2 ^ 49)
  /\ calculate_parlay_payout 3 1.5%float = Ok 4.
Proof. repeat split; vm_compute; reflexivity. Qed.

(* ===================================================================== *)
(** * Binary64 subtraction: [d - 1.0] is zero only for [d = 1.0]          *)
(* ===================================================================== *)

Lemma digits2_pos_bounds p :
  2 ^ (Zpos (digits2_pos p) - 1) <= Zpos p < 2 ^ Zpos (digits2_pos p).
Proof.
  induction p as [p IH|p IH|]; simpl digits2_pos.
  - rewrite Pos2Z.inj_succ.
    replace (Z.succ (Zpos (digits2_pos p)) - 1)
      with (Zpos (digits2_pos p) - 1 + 1) by lia.
    rewrite Z.pow_succ_r, Z.pow_add_r by lia. change (2 ^ 1) with 2. lia.
  - rewrite Pos2Z.inj_succ.
    replace (Z.succ (Zpos (digits2_pos p)) - 1)
      with (Zpos (digits2_pos p) - 1 + 1) by lia.
    rewrite Z.pow_succ_r, Z.pow_add_r by lia. change (2 ^ 1) with 2. lia.
  - simpl. lia.
Qed.

Lemma shr_1_m mrs : 0 <= shr_m mrs -> shr_m (shr_1 mrs) = shr_m mrs / 2.
Proof.
  destruct mrs as [m r s]. simpl. intros Hm.
  destruct m as [|[p|p|]|p]; cbn [shr_1 shr_m]; try lia; try reflexivity.
  - apply Z.div_unique with (r := 1); lia.
  - apply Z.div_unique with (r := 0); lia.
Qed.

Lemma iter_shr_1_m p : forall mrs,
  0 <= shr_m mrs -> shr_m (SpecFloat.iter_pos shr_1 p mrs) = shr_m mrs / 2 ^ Zpos p.
Proof.
  assert (Hpow : forall q, 0 < 2 ^ Zpos q)
    by (intros; apply Z.pow_pos_nonneg; lia).
  induction p as [p IH|p IH|]; intros mrs Hm; simpl SpecFloat.iter_pos.
  - assert (H1 : 0 <= shr_m (shr_1 mrs)).
    { rewrite shr_1_m by assumption. apply Z.div_pos; lia. }
    assert (H2 : 0 <= shr_m (SpecFloat.iter_pos shr_1 p (shr_1 mrs))).
    { rewrite IH by assumption. apply Z.div_pos; [assumption|apply Hpow]. }
    rewrite (IH _ H2), (IH _ H1), shr_1_m by assumption.
    pose proof (Hpow p).
    rewrite !Z.div_div by lia.
    f_equal.
    replace (Zpos p~1) with (1 + Zpos p + Zpos p) by lia.
    rewrite !Z.pow_add_r by lia. change (2 ^ 1) with 2. lia.
  - assert (H2 : 0 <= shr_m (SpecFloat.iter_pos shr_1 p mrs)).
    { rewrite IH by assumption. apply Z.div_pos; [assumption|apply Hpow]. }
    rewrite (IH _ H2), (IH _ Hm).
    pose proof (Hpow p).
    rewrite !Z.div_div by lia.
    f_equal.
    replace (Zpos p~0) with (Zpos p + Zpos p) by lia.
    rewrite !Z.pow_add_r by lia. lia.
  - rewrite shr_1_m by assumption. reflexivity.
Qed.

Lemma shr_fexp_pos m e l :
  0 < m -> emin64 <= e ->
  0 < shr_m (fst (shr_fexp prec emax m e l))
  /\ emin64 <= snd (shr_fexp prec emax m e l).
Proof.
  intros Hm He. unfold shr_fexp, shr.
  assert (Hrec : shr_m (shr_record_of_loc m l) = m)
    by (destruct l as [|[]]; reflexivity).
  destruct m as [|p|p]; try lia.
  simpl Zdigits2.
  pose proof (digits2_pos_bounds p) as [Hlo Hhi].
  set (d := Zpos (digits2_pos p)) in *.
  unfold fexp, SpecFloat.emin, prec, emax.
  destruct (Z.max (d + e - 53) (3 - 1024 - 53) - e) as [|n|n] eqn:En;
    simpl; rewrite ?Hrec; try (split; [lia | assumption]).
  unfold emin64 in *.
  assert (Hn : Zpos n = d - 53) by lia.
  rewrite iter_shr_1_m by (rewrite Hrec; lia). rewrite Hrec, Hn.
  split; [|lia].
  apply Z.lt_le_trans with (2 ^ 52); [reflexivity|].
  apply Z.div_le_lower_bound; [apply Z.pow_pos_nonneg; lia|].
  rewrite <- Z.pow_add_r by lia.
  replace (d - 53 + 52) with (d - 1) by lia. exact Hlo.
Qed.

Lemma round_nearest_even_ge m l : m <= round_nearest_even m l.
Proof. destruct l as [|[]]; simpl; try lia. destruct (Z.even m); lia. Qed.

(** Rounding a positive mantissa whose exponent is not below the least one
    never gives a zero. *)
Lemma binary_round_aux_nonzero sx m e l s0 :
  0 < m -> emin64 <= e ->
  binary_round_aux prec emax sx m e l <> S754_zero s0.
Proof.
  intros Hm He. unfold binary_round_aux.
  destruct (shr_fexp_pos m e l Hm He) as [H1 H2].
  destruct (shr_fexp prec emax m e l) as [mrs' e']. simpl in H1, H2.
  pose proof (round_nearest_even_ge (shr_m mrs') (loc_of_shr_record mrs')) as Hr.
  destruct (shr_fexp_pos
              (round_nearest_even (shr_m mrs') (loc_of_shr_record mrs'))
              e' loc_Exact) as [H3 H4]; [lia|assumption|].
  destruct (shr_fexp prec emax _ e' loc_Exact) as [mrs'' e'']. simpl in H3.
  destruct (shr_m mrs''); try lia.
  destruct (e'' <=? emax - prec); discriminate.
Qed.

Lemma binary_round_nonzero sx mx ex s0 :
  emin64 <= ex -> binary_round prec emax sx mx ex <> S754_zero s0.
Proof.
  intros He. unfold binary_round.
  destruct (shl_align mx ex (fexp prec emax (Zpos (digits2_pos mx) + ex)))
    as [mz ez] eqn:E.
  apply binary_round_aux_nonzero; [lia|].
  unfold shl_align in E.
  assert (emin64 <= fexp prec emax (Zpos (digits2_pos mx) + ex)).
  { unfold fexp, SpecFloat.emin, prec, emax, emin64. lia. }
  destruct (fexp prec emax (Zpos (digits2_pos mx) + ex) - ex) eqn:E2;
    apply (f_equal snd) in E; cbn [snd] in E; subst ez; assumption.
Qed.

Lemma binary_normalize_zero m e s0 :
  emin64 <= e -> binary_normalize prec emax m e false = S754_zero s0 -> m = 0.
Proof.
  intros He. destruct m; simpl; [reflexivity| |]; intros H;
    exfalso; eapply binary_round_nonzero; eauto.
Qed.

Lemma iter_xO m d : Zpos (Pos.iter xO m d) = Zpos m * 2 ^ Zpos d.
Proof.
  induction d using Pos.peano_ind.
  - simpl. lia.
  - rewrite Pos.iter_succ, Pos2Z.inj_xO, IHd, Pos2Z.inj_succ, Z.pow_succ_r
      by lia. lia.
Qed.

Lemma shl_align_fst mx ex ez :
  ez <= ex -> Zpos (fst (shl_align mx ex ez)) = Zpos mx * 2 ^ (ex - ez).
Proof.
  intros H. unfold shl_align.
  destruct (ez - ex) eqn:E; cbn [fst].
  - replace (ex - ez) with 0 by lia. rewrite Z.pow_0_r. lia.
  - lia.
  - rewrite iter_xO. f_equal. f_equal. lia.
Qed.

(** On the specification side: a valid number minus one is a zero only when
    the number is one. *)
Lemma SFsub_one_zero x s0 :
  valid_binary x = true ->
  SF64sub x SF_one = S754_zero s0 -> x = SF_one.
Proof.
  intros Hv H. destruct x as [s|s| |sx mx ex]; try discriminate.
  unfold SF64sub, SFsub, SF_one in H.
  simpl in Hv. unfold bounded, canonical_mantissa in Hv.
  apply andb_prop in Hv as [Hc Hb]. apply Z.eqb_eq in Hc.
  apply Z.leb_le in Hb.
  pose proof (digits2_pos_bounds mx) as [Hlo Hhi].
  set (d := Zpos (digits2_pos mx)) in *.
  unfold fexp, SpecFloat.emin, prec, emax in Hc, Hb.
  apply binary_normalize_zero in H; [|unfold emin64; lia].
  rewrite !shl_align_fst in H by lia.
  destruct sx; unfold cond_Zopp in H.
  { exfalso.
    assert (0 < Zpos mx * 2 ^ (ex - Z.min ex (-52)))
      by (apply Z.mul_pos_pos; [lia|apply Z.pow_pos_nonneg; lia]).
    assert (0 < 4503599627370496 * 2 ^ (-52 - Z.min ex (-52)))
      by (apply Z.mul_pos_pos; [lia|apply Z.pow_pos_nonneg; lia]).
    lia. }
  destruct (Z.le_gt_cases ex (-52)) as [Hle|Hgt].
  - rewrite Z.min_l in H by lia. rewrite Z.sub_diag in H. simpl (2 ^ 0) in H.
    assert (Hmx : Zpos mx = 2 ^ (- ex)).
    { change 4503599627370496 with (2 ^ 52) in H.
      rewrite <- Z.pow_add_r in H by lia.
      replace (52 + (-52 - ex)) with (- ex) in H by lia. lia. }
    assert (Hd : d = - ex + 1).
    { rewrite Hmx in Hlo, Hhi.
      apply Z.pow_le_mono_r_iff in Hlo; try lia.
      apply Z.pow_lt_mono_r_iff in Hhi; try lia. }
    assert (ex = -52) by lia. subst ex.
    simpl in Hmx. unfold SF_one. f_equal. lia.
  - exfalso. rewrite Z.min_r in H by lia.
    replace (-52 - -52) with 0 in H by lia. simpl (2 ^ 0) in H.
    assert (Hd : d = 53) by lia.
    rewrite Hd in Hlo. simpl in Hlo.
    assert (2 <= 2 ^ (ex - -52)).
    { change 2 with (2 ^ 1) at 1. apply Z.pow_le_mono_r; lia. }
    nia.
Qed.

Lemma sub_one_is_zero (d : float) :
  PrimFloat.is_zero (d - 1)%float = true -> (d =? 1)%float = true.
Proof.
  unfold PrimFloat.is_zero. rewrite !FloatAxioms.eqb_spec, FloatAxioms.sub_spec.
  change (Prim2SF 1) with SF_one. change (Prim2SF PrimFloat.zero) with (S754_zero false).
  intros H.
  assert (exists s0, SF64sub (Prim2SF d) SF_one = S754_zero s0) as [s0 Hz].
  { destruct (SF64sub (Prim2SF d) SF_one) as [s|s| |s m e]; try discriminate.
    - eauto.
    - destruct s; discriminate.
    - destruct s; discriminate. }
  apply SFsub_one_zero in Hz; [|apply Prim2SF_valid].
  rewrite Hz. reflexivity.
Qed.

(* ===================================================================== *)
(** * The conversions: where a division by zero happens                   *)
(* ===================================================================== *)

Lemma int_truediv_nonzero a b :
  b <> 0 -> int_truediv a b <> Raise ZeroDivisionError.
Proof.
  intros Hb. unfold int_truediv.
  destruct (Z.eqb_spec b 0); [contradiction|].
  destruct (small a && small b); [discriminate|].
  destruct (PrimFloat.is_infinity _); discriminate.
Qed.

Lemma int_of_float_no_division f : int_of_float f <> Raise ZeroDivisionError.
Proof.
  unfold int_of_float. destruct (Prim2SF f); discriminate.
Qed.

(** C5, as the code has it.  Neither conversion validates its argument:
    [american_to_decimal(0)] and [decimal_to_american(1.0)] fail with the
    [ZeroDivisionError] of their own division.  No other argument makes
    either of them divide by zero: no nonzero integer for
    [american_to_decimal], no float other than 1.0 (infinities and NaN
    included) for [decimal_to_american]. *)
Theorem conversions_divide_by_zero_only_at_0_and_1 :
  fails_by_division (american_to_decimal 0)
  /\ fails_by_division (decimal_to_american 1%float)
  /\ (forall a, a <> 0 -> ~ fails_by_division (american_to_decimal a))
  /\ (forall d, (d =? 1)%float = false ->
                ~ fails_by_division (decimal_to_american d)).
Proof.
  unfold fails_by_division.
  split; [reflexivity|]. split; [reflexivity|]. split.
  - intros a Ha. unfold american_to_decimal.
    destruct (0 <? a).
    + pose proof (int_truediv_nonzero a 100 ltac:(lia)) as H.
      destruct (int_truediv a 100) as [q|e]; simpl; [discriminate|congruence].
    + pose proof (int_truediv_nonzero 100 (Z.abs a) ltac:(lia)) as H.
      destruct (int_truediv 100 (Z.abs a)) as [q|e]; simpl;
        [discriminate|congruence].
  - intros d Hd. unfold decimal_to_american.
    destruct (2 <=? d)%float; [apply int_of_float_no_division|].
    unfold float_truediv.
    destruct (PrimFloat.is_zero (d - 1)%float) eqn:Hz.
    + apply sub_one_is_zero in Hz. congruence.
    + simpl. apply int_of_float_no_division.
Qed.

(** C5 as stated fails: what rejects the two invalid arguments is the
    division by zero itself. *)
Lemma conversions_fail_by_division :
  american_to_decimal 0 = Raise ZeroDivisionError
  /\ int_truediv 100 (Z.abs 0) = Raise ZeroDivisionError
  /\ decimal_to_american 1%float = Raise ZeroDivisionError
  /\ float_truediv (-100)%float (1 - 1)%float = Raise ZeroDivisionError.
Proof. repeat split. Qed.

(* ===================================================================== *)
(** * The conversions: the round trip                                     *)
(* ===================================================================== *)







(* ===================================================================== *)
(** * settle_bet: the WON outcome                                         *)
(* ===================================================================== *)

Lemma no_lost_no_pending_all_winning legs :
  has_result LegResult.LOST legs = false ->
  has_result LegResult.PENDING legs = false ->
  all_winning legs = true.
Proof.
  unfold has_result, all_winning.
  induction legs as [|l legs IH]; simpl; [reflexivity|].
  destruct (BetLeg.result l); simpl; intros H1 H2;
    try discriminate; auto.
Qed.

(** What the all-winning branch stores, when it runs to the end: status
    WON and, per participant, a row whose [net_cents] is the float
    [(stake_cents / total_stake) * total_payout - stake_cents]. *)
Lemma settle_bet_all_winning now f bet_id db bet db' :
  bet_row bet_id db = Some bet ->
  has_result LegResult.LOST (legs_after f bet_id db) = false ->
  has_result LegResult.PENDING (legs_after f bet_id db) = false ->
  settle_bet now f bet_id db = Ok db' ->
  let participants := participants_of bet_id (DB.bet_participants db) in
  exists decimal_odds total_payout added,
    combined_odds (legs_after f bet_id db) = Ok decimal_odds
    /\ calculate_parlay_payout (total_stake_of participants) decimal_odds
       = Ok total_payout
    /\ bet_row bet_id db' = Some (set_status now BetStatus.WON bet)
    /\ DB.settlements db' = (DB.settlements db ++ added)%list
    /\ Forall2
         (fun p s =>
            Settlement.bet_id s = bet_id
            /\ Settlement.person_id s = BetParticipant.person_id p
            /\ exists x,
                 won_net_cents (total_stake_of participants) total_payout
                   (BetParticipant.stake_cents p) = Ok x
                 /\ Settlement.net_cents s = Py.Float x)
         participants added.
Proof.
  intros Hbet Hlost Hpend H participants.
  rewrite (settle_bet_unfold _ _ _ _ _ Hbet) in H.
  unfold apply_rules in H. rewrite Hlost, Hpend in H.
  rewrite (no_lost_no_pending_all_winning _ Hlost Hpend) in H.
  apply bind_Ok in H as ([st rows] & Hrules & H).
  apply bind_Ok in Hrules as (decimal_odds & Hodds & Hrules).
  apply bind_Ok in Hrules as (total_payout & Hpay & Hrules).
  apply bind_Ok in Hrules as (rs & Hrs & Hrules).
  inversion Hrules; subst st rows; clear Hrules.
  inversion H; subst db'; clear H. simpl.
  destruct (insert_settlements_app rs (DB.settlements db))
    as (added & Heq & Hall).
  exists decimal_odds, total_payout, added.
  split; [exact Hodds|]. split; [exact Hpay|]. split; [|split; [exact Heq|]].
  - unfold bet_row in *. simpl. now apply find_update_bet.
  - apply for_each_Forall2 in Hrs. fold participants in Hrs.
    clear Heq. revert rs added Hrs Hall.
    generalize (total_stake_of participants) as total.
    induction participants as [|p ps IH]; intros total rs added Hrs Hall;
      inversion Hrs; subst; inversion Hall; subst; constructor.
    + match goal with
      | Hw : won_settlement _ _ _ _ _ = Ok _, Hst : stored_as _ _ |- _ =>
          unfold won_settlement in Hw;
          apply bind_Ok in Hw as (x & Hx & Hw); inversion Hw; subst;
          unfold stored_as in Hst; inversion Hst
      end.
      split; [reflexivity|]. split; [reflexivity|]. eauto.
    + eapply IH; eauto.
Qed.

(** C1 on the code.  One leg at +150 is won; 33.33 and 66.67 were staked.
    The payout is [calculate_parlay_payout(10000, 2.5) = 25000], the first
    share is the float 8332.5, and the claim's
    [round(share) - stake_cents] is the integer 4999.  The stored
    [net_cents] are the floats 4999.5 and 10000.5: the shares are not
    rounded. *)
Theorem settle_bet_won_shares_not_rounded :
  let db := Sample.single LegResult.PENDING BetStatus.OPEN in
  exists db',
    settle_bet 5 (Sample.submit 1 "won") 1 db = Ok db'
    /\ (Bet.status <$> bet_row 1 db') = Some BetStatus.WON
    /\ combined_odds (legs_after (Sample.submit 1 "won") 1 db) = Ok 2.5%float
    /\ calculate_parlay_payout 10000 2.5%float = Ok 25000
    /\ (q <- int_truediv 3333 10000 ;;
        payout <- float_of_int 25000 ;;
        share <- Py.round (q * payout)%float ;;
        Ok (share - 3333)) = Ok 4999
    /\ map Settlement.net_cents (DB.settlements db')
       = [Py.Float 4999.5%float; Py.Float 10000.5%float].
Proof.
  eexists. split; [vm_compute; reflexivity|].
  repeat split; vm_compute; reflexivity.
Qed.


(* ===================================================================== *)
(** * new_bet: the stakes of the participants                             *)
(* ===================================================================== *)

Lemma binary_round_aux_sign sx m e l :
  match binary_round_aux prec emax sx m e l with
  | S754_zero s | S754_infinity s | S754_finite s _ _ => s = sx
  | S754_nan => True
  end.
Proof.
  unfold binary_round_aux.
  destruct (shr_fexp prec emax m e l) as [mrs' e'].
  destruct (shr_fexp prec emax _ e' loc_Exact) as [mrs'' e''].
  destruct (shr_m mrs''); try exact I; try reflexivity.
  destruct (e'' <=? emax - prec); reflexivity.
Qed.

(** A float above zero times 100, truncated, is not negative. *)
Lemma int_of_float_positive_times_100 x z :
  (0 <? x)%float = true -> int_of_float (x * 100)%float = Ok z -> 0 <= z.
Proof.
  rewrite FloatAxioms.ltb_spec. unfold int_of_float.
  rewrite FloatAxioms.mul_spec.
  change (Prim2SF 0) with (S754_zero false).
  change (Prim2SF 100) with (S754_finite false 7036874417766400 (-46)).
  destruct (Prim2SF x) as [s|s| |s m e]; try (destruct s); intros Hlt;
    try discriminate Hlt.
  - intros H. discriminate H.
  - unfold SF64mul, SFmul. cbn [xorb].
    pose proof (binary_round_aux_sign false
                  (Zpos (m * 7036874417766400)) (e + -46) loc_Exact) as Hs.
    destruct (binary_round_aux prec emax false
                (Zpos (m * 7036874417766400)) (e + -46) loc_Exact)
      as [s'|s'| |s' m' e']; try discriminate.
    + intros H. inversion H. lia.
    + subst s'. intros H. inversion H. apply Z.shiftl_nonneg. lia.
Qed.

Lemma read_stake_spec f acc person out :
  read_stake f acc person = Ok out ->
  out = acc
  \/ exists x stake_cents,
       float_of_string (default "0" (f !! person_stake_key (Person.id person)))
       = Ok x
       /\ (0 <? x)%float = true
       /\ 0 <= stake_cents
       /\ out = (acc ++ [{| pd_person_id := Person.id person;
                            pd_stake_cents := stake_cents |}])%list.
Proof.
  unfold read_stake.
  destruct (String.eqb _ ""); [intros H; inversion H; auto|].
  intros H. apply bind_Ok in H as (x & Hx & H).
  destruct (0 <? x)%float eqn:Hpos; [|inversion H; auto].
  apply bind_Ok in H as (c & Hc & H). inversion H; subst.
  right. exists x, c. repeat split; auto.
  eapply int_of_float_positive_times_100; eauto.
Qed.

Lemma read_stakes_nonneg f persons : forall acc out,
  fold_each (read_stake f) persons acc = Ok out ->
  Forall (fun r => 0 <= pd_stake_cents r) acc ->
  Forall (fun r => 0 <= pd_stake_cents r) out.
Proof.
  induction persons as [|p ps IH]; simpl; intros acc out H Hacc.
  - inversion H; subst. exact Hacc.
  - apply bind_Ok in H as (mid & Hmid & H).
    apply (IH _ _ H).
    apply read_stake_spec in Hmid as [->|(x & c & _ & _ & Hc & ->)];
      [exact Hacc|].
    apply Forall_app. split; [exact Hacc|]. repeat constructor. exact Hc.
Qed.

Lemma sum_zero_or_positive (rows : list participant_data) :
  Forall (fun r => 0 <= pd_stake_cents r) rows ->
  fold_right Z.add 0 (map pd_stake_cents rows) <> 0 ->
  Exists (fun r => 0 < pd_stake_cents r) rows.
Proof.
  induction 1 as [|r rows Hr Hrows IH]; simpl; intros Hsum.
  - congruence.
  - destruct (Z.eq_dec (pd_stake_cents r) 0) as [E|E].
    + apply Exists_cons_tl. apply IH. lia.
    + apply Exists_cons_hd. lia.
Qed.

(** What holds of every accepted request: no stored stake is negative, and
    one at least is positive. *)
Lemma new_bet_created_stakes now f db bet_id db' :
  new_bet now f db = Ok (Created bet_id db') ->
  exists rows,
    DB.bet_participants db'
    = insert_participants (DB.bet_participants db) bet_id rows
    /\ Forall (fun r => 0 <= pd_stake_cents r) rows
    /\ Exists (fun r => 0 < pd_stake_cents r) rows.
Proof.
  unfold new_bet. intros H.
  apply bind_Ok in H as (leg_count & _ & H).
  apply bind_Ok in H as (legs_data & _ & H).
  destruct (decide (legs_data = [])); [discriminate|].
  apply bind_Ok in H as (rows & Hrows & H).
  destruct (decide (rows = [])); [discriminate|].
  destruct (Z.eqb_spec (fold_right Z.add 0 (map pd_stake_cents rows)) 0)
    as [E|E]; [discriminate|].
  inversion H; subst. simpl.
  pose proof (read_stakes_nonneg _ _ _ _ Hrows ltac:(constructor)) as Hnn.
  exists rows. split; [reflexivity|]. split; [exact Hnn|].
  now apply sum_zero_or_positive.
Qed.

(** C9 on the code.  The form gives the first person a stake of "0.001"
    and the second "10".  [float("0.001") > 0] holds, so the first person
    takes part, with [int(0.001 * 100) = 0] cents; the total is 1000, the
    bet is created, and a BetParticipant row with [stake_cents = 0] is
    stored. *)
Theorem new_bet_stores_zero_stake :
  float_of_string "0.001" = Ok 0x1.0624dd2f1a9fcp-10%float
  /\ (0 <? 0x1.0624dd2f1a9fcp-10)%float = true
  /\ int_of_float (0x1.0624dd2f1a9fcp-10 * 100)%float = Ok 0
  /\ exists db',
       new_bet 7 (Sample.new_bet_form "0.001" "10") Sample.empty
       = Ok (Created 1 db')
       /\ map (fun p => (BetParticipant.person_id p,
                         BetParticipant.stake_cents p))
            (DB.bet_participants db')
          = [(1, 0); (2, 1000)].
Proof.
  split; [vm_compute; reflexivity|].
  split; [reflexivity|].
  split; [vm_compute; reflexivity|].
  eexists. split; vm_compute; reflexivity.
Qed.

(* ===================================================================== *)
(** * Where the modelled code can fail                                    *)
(* ===================================================================== *)

Lemma bind_Raise {A B} (r : res A) (k : A -> res B) (e : exn) :
  Py.bind r k = Raise e -> r = Raise e \/ exists a, r = Ok a /\ k a = Raise e.
Proof. destruct r as [a|e']; simpl; intros H; [eauto | left; congruence]. Qed.


Lemma fold_each_Raise {A S} (g : S -> A -> res S) (l : list A) (e : exn) :
  forall s, fold_each g l s = Raise e ->
            exists x s', In x l /\ g s' x = Raise e.
Proof.
  induction l as [|x l IH]; simpl; intros s H; [discriminate|].
  apply bind_Raise in H as [H|(s1 & _ & H)]; [exists x, s; auto|].
  destruct (IH _ H) as (x' & s' & Hin & Hx'). exists x', s'. auto.
Qed.

Lemma int_truediv_division a b e :
  int_truediv a b = Raise e ->
  (e = ZeroDivisionError /\ b = 0) \/ (e = OverflowError /\ b <> 0).
Proof.
  unfold int_truediv. destruct (Z.eqb_spec b 0).
  - intros H. inversion H. auto.
  - destruct (small a && small b); [discriminate|].
    destruct (PrimFloat.is_infinity _); intros H; inversion H. auto.
Qed.

Lemma float_of_int_Raise n e : float_of_int n = Raise e -> e = OverflowError.
Proof.
  unfold float_of_int. destruct (PrimFloat.is_infinity _); intros H;
    inversion H. reflexivity.
Qed.

Lemma round_Raise x e :
  Py.round x = Raise e -> e = ValueError \/ e = OverflowError.
Proof.
  unfold Py.round, classify_error. destruct (to_fraction x) as [[n d]|];
    [discriminate|].
  destruct (PrimFloat.is_nan x); intros H; inversion H; auto.
Qed.

Lemma int_of_float_Raise x e :
  int_of_float x = Raise e -> e = ValueError \/ e = OverflowError.
Proof.
  unfold int_of_float. destruct (Prim2SF x); intros H; inversion H; auto.
Qed.

Lemma american_to_decimal_Raise a e :
  american_to_decimal a = Raise e ->
  (e = ZeroDivisionError /\ a = 0) \/ (e = OverflowError /\ a <> 0).
Proof.
  unfold american_to_decimal. destruct (Z.ltb_spec 0 a) as [Hlt|Hge]; intros H.
  - apply bind_Raise in H as [H|(q & _ & H)]; [|discriminate].
    apply int_truediv_division in H as [[_ Hb]|[-> _]]; [discriminate Hb|].
    right. split; [reflexivity | lia].
  - apply bind_Raise in H as [H|(q & _ & H)]; [|discriminate].
    apply int_truediv_division in H as [[-> Hb]|[-> Hb]]; [left|right];
      (split; [reflexivity | lia]).
Qed.

Lemma calculate_parlay_payout_Raise stake odds e :
  calculate_parlay_payout stake odds = Raise e ->
  e = ValueError \/ e = OverflowError.
Proof.
  unfold calculate_parlay_payout. intros H.
  apply bind_Raise in H as [H|(s & _ & H)].
  - apply float_of_int_Raise in H. auto.
  - now apply round_Raise in H.
Qed.

(* ===================================================================== *)
(** * settle_bet: status, failures and what is left alone                 *)
(* ===================================================================== *)

Lemma apply_rules_status now bet_id legs ps st rows :
  apply_rules now bet_id legs ps = Ok (st, rows) -> st = status_of_legs legs.
Proof.
  unfold apply_rules, status_of_legs.
  destruct (has_result LegResult.LOST legs) eqn:Hl.
  { intros H. now inversion H. }
  destruct (has_result LegResult.PENDING legs) eqn:Hp.
  { intros H. now inversion H. }
  rewrite (no_lost_no_pending_all_winning _ Hl Hp). intros H.
  apply bind_Ok in H as (d & _ & H).
  apply bind_Ok in H as (tp & _ & H).
  apply bind_Ok in H as (rs & _ & H).
  now inversion H.
Qed.

Lemma all_void_no_lost_no_pending legs :
  all_void legs = true ->
  has_result LegResult.LOST legs = false
  /\ has_result LegResult.PENDING legs = false.
Proof.
  unfold all_void, has_result.
  induction legs as [|l legs IH]; simpl; [auto|].
  destruct (BetLeg.result l); simpl; try discriminate. exact IH.
Qed.

(** X1.  The status a settlement stores is read off the legs after the
    updates: LOST when one is LOST, otherwise OPEN when one is PENDING,
    otherwise WON.  VOID and CASHED_OUT are never stored: a bet whose legs
    are all VOID is stored as WON.  [settled_at] becomes the time of the
    request unless the status is OPEN, and the stake and [placed_at] stay. *)
Theorem settle_bet_status_from_legs now f bet_id db db' :
  settle_bet now f bet_id db = Ok db' ->
  exists bet bet',
    bet_row bet_id db = Some bet
    /\ bet_row bet_id db' = Some bet'
    /\ Bet.status bet' = status_of_legs (legs_after f bet_id db)
    /\ Bet.status bet' <> BetStatus.VOID
    /\ Bet.status bet' <> BetStatus.CASHED_OUT
    /\ (all_void (legs_after f bet_id db) = true ->
        Bet.status bet' = BetStatus.WON)
    /\ Bet.settled_at bet' =
       (if BetStatus.eqb (Bet.status bet') BetStatus.OPEN
        then Bet.settled_at bet else Some now)
    /\ Bet.stake_cents bet' = Bet.stake_cents bet
    /\ Bet.placed_at bet' = Bet.placed_at bet.
Proof.
  intros H. unfold settle_bet in H.
  apply bind_Ok in H as (bet & Hbet & H).
  apply bind_Ok in H as ([st rows] & Hrules & H).
  inversion H; subst; clear H.
  assert (Hrow : bet_row bet_id db = Some bet).
  { unfold bet_row. unfold get_or_404 in Hbet.
    destruct (find _ (DB.bets db)); [now inversion Hbet | discriminate]. }
  apply apply_rules_status in Hrules. fold (legs_after f bet_id db) in Hrules.
  exists bet, (set_status now st bet).
  split; [exact Hrow|]. split.
  { unfold bet_row in *. simpl. now apply find_update_bet. }
  simpl. subst st. split; [reflexivity|].
  unfold status_of_legs.
  repeat split; try reflexivity;
    try (destruct (has_result LegResult.LOST _);
         [discriminate | destruct (has_result LegResult.PENDING _); discriminate]).
  intros Hv. apply all_void_no_lost_no_pending in Hv as [-> ->]. reflexivity.
Qed.

Lemma settle_bet_status_from_legs_witness :
  exists bet bet',
    bet_row 1 (Sample.parlay LegResult.PENDING LegResult.VOID) = Some bet
    /\ bet_row 1
         (DB.mk Sample.people [Bet.mk 1 10000 BetStatus.WON 0 (Some 5)]
            [BetLeg.mk 1 1 "A v B" "A ML" 150 LegResult.VOID;
             BetLeg.mk 2 1 "C v D" "C ML" (-200) LegResult.VOID]
            [BetParticipant.mk 1 1 1 6000; BetParticipant.mk 2 1 2 4000]
            [Settlement.mk 1 1 1 (Py.Float 0) 5;
             Settlement.mk 2 1 2 (Py.Float 0) 5]) = Some bet'
    /\ Bet.status bet' =
       status_of_legs
         (legs_after (Sample.submit 1 "void") 1
            (Sample.parlay LegResult.PENDING LegResult.VOID))
    /\ Bet.status bet' <> BetStatus.VOID
    /\ Bet.status bet' <> BetStatus.CASHED_OUT
    /\ (all_void
          (legs_after (Sample.submit 1 "void") 1
             (Sample.parlay LegResult.PENDING LegResult.VOID)) = true ->
        Bet.status bet' = BetStatus.WON)
    /\ Bet.settled_at bet' =
       (if BetStatus.eqb (Bet.status bet') BetStatus.OPEN
        then Bet.settled_at bet else Some 5)
    /\ Bet.stake_cents bet' = Bet.stake_cents bet
    /\ Bet.placed_at bet' = Bet.placed_at bet.
Proof.
  apply (settle_bet_status_from_legs 5 (Sample.submit 1 "void") 1
           (Sample.parlay LegResult.PENDING LegResult.VOID)).
  vm_compute. reflexivity.
Defined.





Lemma update_bet_Forall2 now st bet_id tbl :
  Forall2 (fun b b' => Bet.id b' = Bet.id b
                       /\ (Bet.id b <> bet_id -> b' = b))
    tbl (update_bet now st bet_id tbl).
Proof.
  induction tbl as [|b tbl IH]; simpl; [constructor|].
  destruct (Z.eqb_spec (Bet.id b) bet_id).
  - constructor.
    + split; [reflexivity | congruence].
    + clear. induction tbl; constructor; auto.
  - constructor; [auto | exact IH].
Qed.

Lemma apply_rules_rows_of now bet_id legs ps st rows :
  apply_rules now bet_id legs ps = Ok (st, rows) ->
  Forall (fun r : new_settlement =>
            exists p net, In p ps
                          /\ r = (bet_id, BetParticipant.person_id p, net, now))
    rows.
Proof.
  unfold apply_rules.
  destruct (has_result LegResult.LOST legs).
  { intros H. inversion H; subst. apply List.Forall_forall. intros r Hr.
    apply in_map_iff in Hr as (p & <- & Hp). unfold lost_settlement. eauto. }
  destruct (has_result LegResult.PENDING legs).
  { intros H. inversion H. constructor. }
  destruct (all_winning legs).
  { intros H.
    apply bind_Ok in H as (d & _ & H).
    apply bind_Ok in H as (tp & _ & H).
    apply bind_Ok in H as (rs & Hrs & H).
    inversion H; subst; clear H.
    apply for_each_Forall2 in Hrs.
    induction Hrs as [|p r ps' rs' Hr _ IH]; constructor.
    - unfold won_settlement in Hr. apply bind_Ok in Hr as (x & _ & Hr).
      inversion Hr. exists p. eexists. split; [now left | reflexivity].
    - eapply List.Forall_impl; [|exact IH].
      intros r' (p' & net & Hin & ->). exists p', net. split; [now right|auto]. }
  destruct (all_void legs); intros H; inversion H; constructor.
Qed.

(** X3.  A settlement that is stored leaves the persons and the
    participants as they were, keeps every bet row in its place with its
    key, and changes no row of another bet.  Every Settlement row it adds
    carries the settled bet, the time of the request and the person of one
    of the bet's participants. *)
Theorem settle_bet_frame now f bet_id db db' :
  settle_bet now f bet_id db = Ok db' ->
  DB.persons db' = DB.persons db
  /\ DB.bet_participants db' = DB.bet_participants db
  /\ Forall2 (fun b b' => Bet.id b' = Bet.id b
                          /\ (Bet.id b <> bet_id -> b' = b))
       (DB.bets db) (DB.bets db')
  /\ exists added,
       DB.settlements db' = (DB.settlements db ++ added)%list
       /\ Forall
            (fun s =>
               Settlement.bet_id s = bet_id
               /\ Settlement.ts s = now
               /\ exists p,
                    In p (participants_of bet_id (DB.bet_participants db))
                    /\ Settlement.person_id s = BetParticipant.person_id p)
            added.
Proof.
  unfold settle_bet. intros H.
  apply bind_Ok in H as (bet & _ & H).
  apply bind_Ok in H as ([st rows] & Hrules & H).
  inversion H; subst; clear H. simpl.
  split; [reflexivity|]. split; [reflexivity|].
  split; [apply update_bet_Forall2|].
  destruct (insert_settlements_app rows (DB.settlements db))
    as (added & Heq & Hall).
  exists added. split; [exact Heq|].
  apply apply_rules_rows_of in Hrules. clear Heq.
  induction Hall as [|r s rows' added' Hrs _ IH]; [constructor|].
  inversion Hrules as [|r0 rs0 (p & net & Hin & Hr) Hrest]; subst.
  constructor; [|apply IH; assumption].
  unfold stored_as in Hrs. injection Hrs as E1 E2 E3 E4. eauto.
Qed.

Lemma settle_bet_frame_witness :
  exists db',
    settle_bet 5 (Sample.submit 1 "won") 1
      (Sample.single LegResult.PENDING BetStatus.OPEN) = Ok db'
    /\ DB.persons db' = Sample.people
    /\ DB.bet_participants db' =
       DB.bet_participants (Sample.single LegResult.PENDING BetStatus.OPEN)
    /\ Forall2 (fun b b' => Bet.id b' = Bet.id b
                            /\ (Bet.id b <> 1 -> b' = b))
         (DB.bets (Sample.single LegResult.PENDING BetStatus.OPEN))
         (DB.bets db')
    /\ exists added,
         DB.settlements db' = ([] ++ added)%list
         /\ Forall
              (fun s =>
                 Settlement.bet_id s = 1
                 /\ Settlement.ts s = 5
                 /\ exists p,
                      In p (participants_of 1
                              (DB.bet_participants
                                 (Sample.single LegResult.PENDING BetStatus.OPEN)))
                      /\ Settlement.person_id s = BetParticipant.person_id p)
              added.
Proof.
  eexists. split; [vm_compute; reflexivity|].
  apply (settle_bet_frame 5 (Sample.submit 1 "won") 1
           (Sample.single LegResult.PENDING BetStatus.OPEN)).
  vm_compute. reflexivity.
Defined.

Lemma lost_rows_total now bet_id ps added :
  Forall2 stored_as (map (lost_settlement now bet_id) ps) added ->
  int_total (map Settlement.net_cents added) = Some (- total_stake_of ps).
Proof.
  revert added. induction ps as [|p ps IH]; simpl; intros added H;
    inversion H as [|r s rs ss Hs Hrest]; subst; simpl; [reflexivity|].
  unfold stored_as, lost_settlement in Hs. injection Hs as _ _ Hnet _.
  rewrite Hnet, (IH _ Hrest). simpl. f_equal.
  unfold total_stake_of. simpl. lia.
Qed.

(** X4.  When a leg is LOST the Settlement rows that are added all hold
    integers, and these add up to minus the total of the participants'
    stakes: the settlement debits exactly what was staked. *)
Theorem settle_bet_lost_debits_total_stake now f bet_id db bet :
  bet_row bet_id db = Some bet ->
  has_result LegResult.LOST (legs_after f bet_id db) = true ->
  exists db' added,
    settle_bet now f bet_id db = Ok db'
    /\ DB.settlements db' = (DB.settlements db ++ added)%list
    /\ int_total (map Settlement.net_cents added)
       = Some (- total_stake_of
                   (participants_of bet_id (DB.bet_participants db))).
Proof.
  intros Hbet Hlost.
  rewrite (settle_bet_unfold _ _ _ _ _ Hbet).
  unfold apply_rules. rewrite Hlost. simpl.
  destruct (insert_settlements_app
              (map (lost_settlement now bet_id)
                 (participants_of bet_id (DB.bet_participants db)))
              (DB.settlements db)) as (added & Heq & Hall).
  eexists _, added. split; [reflexivity|]. split; [exact Heq|].
  eapply lost_rows_total; eauto.
Qed.

Lemma settle_bet_lost_debits_total_stake_witness :
  exists db' added,
    settle_bet 5 (Sample.submit 1 "lost") 1
      (Sample.parlay LegResult.PENDING LegResult.WON) = Ok db'
    /\ DB.settlements db' = ([] ++ added)%list
    /\ int_total (map Settlement.net_cents added)
       = Some (- total_stake_of
                   (participants_of 1
                      (DB.bet_participants
                         (Sample.parlay LegResult.PENDING LegResult.WON)))).
Proof.
  apply (settle_bet_lost_debits_total_stake 5 (Sample.submit 1 "lost") 1
           (Sample.parlay LegResult.PENDING LegResult.WON)
           (Bet.mk 1 10000 BetStatus.OPEN 0 None)).
  - reflexivity.
  - vm_compute. reflexivity.
Defined.

(* ===================================================================== *)
(** * new_bet: what a created bet looks like                              *)
(* ===================================================================== *)

Lemma fresh_id_above ids x : In x ids -> x < fresh_id ids.
Proof.
  unfold fresh_id. induction ids as [|y ids IH]; simpl; [tauto|].
  intros [->|H]; [lia|]. specialize (IH H). lia.
Qed.

Lemma fresh_id_not_in ids : ~ In (fresh_id ids) ids.
Proof. intros H. apply fresh_id_above in H. lia. Qed.

Lemma insert_legs_app bet_id (rows : list leg_data) :
  forall tbl, exists added,
    insert_legs tbl bet_id rows = (tbl ++ added)%list
    /\ Forall2
         (fun r l =>
            BetLeg.bet_id l = bet_id
            /\ BetLeg.result l = LegResult.PENDING
            /\ BetLeg.matchup l = ld_matchup r
            /\ BetLeg.bet_description l = ld_bet_description r
            /\ BetLeg.american_odds l = ld_american_odds r)
         rows added.
Proof.
  induction rows as [|r rows IH]; intros tbl; simpl.
  - exists []. split; [now rewrite app_nil_r | constructor].
  - destruct (IH (tbl ++ [BetLeg.mk (fresh_id (map BetLeg.id tbl)) bet_id
                            (ld_matchup r) (ld_bet_description r)
                            (ld_american_odds r) LegResult.PENDING])%list)
      as (added & Heq & Hall).
    eexists (_ :: added). split.
    + rewrite Heq, <- app_assoc. reflexivity.
    + constructor; [simpl; auto | exact Hall].
Qed.

Lemma insert_participants_app bet_id (rows : list participant_data) :
  forall tbl, exists added,
    insert_participants tbl bet_id rows = (tbl ++ added)%list
    /\ Forall2
         (fun r p =>
            BetParticipant.bet_id p = bet_id
            /\ BetParticipant.person_id p = pd_person_id r
            /\ BetParticipant.stake_cents p = pd_stake_cents r)
         rows added.
Proof.
  induction rows as [|r rows IH]; intros tbl; simpl.
  - exists []. split; [now rewrite app_nil_r | constructor].
  - destruct (IH (tbl ++ [BetParticipant.mk
                            (fresh_id (map BetParticipant.id tbl)) bet_id
                            (pd_person_id r) (pd_stake_cents r)])%list)
      as (added & Heq & Hall).
    eexists (_ :: added). split.
    + rewrite Heq, <- app_assoc. reflexivity.
    + constructor; [simpl; auto | exact Hall].
Qed.

(** The steps of an accepted request. *)
Lemma new_bet_Created now f db bet_id db' :
  new_bet now f db = Ok (Created bet_id db') ->
  exists leg_count legs_data participants_data,
    (match f !! "leg_count" with
     | Some s => int_of_string s
     | None => Ok 0
     end) = Ok leg_count
    /\ fold_each (read_leg f) (range leg_count) [] = Ok legs_data
    /\ legs_data <> []
    /\ fold_each (read_stake f) (DB.persons db) [] = Ok participants_data
    /\ participants_data <> []
    /\ bet_id = fresh_id (map Bet.id (DB.bets db))
    /\ db' =
       DB.mk (DB.persons db)
         (DB.bets db ++
          [Bet.mk bet_id
             (fold_right Z.add 0 (map pd_stake_cents participants_data))
             BetStatus.OPEN now None])
         (insert_legs (DB.bet_legs db) bet_id legs_data)
         (insert_participants (DB.bet_participants db) bet_id
            participants_data)
         (DB.settlements db).
Proof.
  unfold new_bet. intros H.
  apply bind_Ok in H as (leg_count & Hcount & H).
  apply bind_Ok in H as (legs_data & Hlegs & H).
  destruct (decide (legs_data = [])); [discriminate|].
  apply bind_Ok in H as (rows & Hrows & H).
  destruct (decide (rows = [])); [discriminate|].
  destruct (fold_right Z.add 0 (map pd_stake_cents rows) =? 0);
    [discriminate|].
  inversion H; subst.
  exists leg_count, legs_data, rows. repeat split; auto.
Qed.

Lemma Forall2_nonempty {A B} (R : A -> B -> Prop) l l' :
  Forall2 R l l' -> l <> [] -> l' <> [].
Proof. intros H. inversion H; congruence. Qed.

Lemma stakes_total (rows : list participant_data) added bet_id :
  Forall2
    (fun r p =>
       BetParticipant.bet_id p = bet_id
       /\ BetParticipant.person_id p = pd_person_id r
       /\ BetParticipant.stake_cents p = pd_stake_cents r)
    rows added ->
  fold_right Z.add 0 (map pd_stake_cents rows) = total_stake_of added.
Proof.
  unfold total_stake_of.
  induction 1 as [|r p rows added (_ & _ & Hs) _ IH]; simpl; [reflexivity|].
  rewrite Hs, IH. reflexivity.
Qed.

(** X5.  An accepted bet-creation request only appends: the persons and the
    Settlement rows are as before, and the bets, legs and participants that
    were stored are still there, in place, followed by the new rows.  The
    new bet has a key no stored bet had, status OPEN, no [settled_at], and
    a stake that is the sum of the stakes of its new participants; there is
    at least one new leg and one new participant, all carrying the new
    bet's key, and every new leg is PENDING. *)
Theorem new_bet_appends now f db bet_id db' :
  new_bet now f db = Ok (Created bet_id db') ->
  ~ In bet_id (map Bet.id (DB.bets db))
  /\ DB.persons db' = DB.persons db
  /\ DB.settlements db' = DB.settlements db
  /\ exists bet new_legs new_participants,
       DB.bets db' = (DB.bets db ++ [bet])%list
       /\ DB.bet_legs db' = (DB.bet_legs db ++ new_legs)%list
       /\ DB.bet_participants db'
          = (DB.bet_participants db ++ new_participants)%list
       /\ Bet.id bet = bet_id
       /\ Bet.status bet = BetStatus.OPEN
       /\ Bet.settled_at bet = None
       /\ Bet.placed_at bet = now
       /\ Bet.stake_cents bet = total_stake_of new_participants
       /\ new_legs <> []
       /\ Forall (fun l => BetLeg.bet_id l = bet_id
                           /\ BetLeg.result l = LegResult.PENDING) new_legs
       /\ new_participants <> []
       /\ Forall (fun p => BetParticipant.bet_id p = bet_id) new_participants.
Proof.
  intros H.
  apply new_bet_Created in H
    as (n & legs_data & rows & _ & _ & Hlegs & _ & Hrows & -> & ->).
  simpl.
  split; [apply fresh_id_not_in|]. split; [reflexivity|].
  split; [reflexivity|].
  set (b := fresh_id (map Bet.id (DB.bets db))).
  destruct (insert_legs_app b legs_data (DB.bet_legs db))
    as (new_legs & -> & Hl).
  destruct (insert_participants_app b rows (DB.bet_participants db))
    as (new_ps & -> & Hp).
  eexists _, new_legs, new_ps.
  split; [reflexivity|]. split; [reflexivity|]. split; [reflexivity|].
  simpl. repeat split.
  - eapply stakes_total; eauto.
  - eapply Forall2_nonempty; eauto.
  - clear -Hl. induction Hl as [|r l rs ls (H1 & H2 & _) _ IH];
      constructor; auto.
  - eapply Forall2_nonempty; eauto.
  - clear -Hp. induction Hp as [|r p rs ps (H1 & _) _ IH];
      constructor; auto.
Qed.

Lemma new_bet_appends_witness :
  exists db',
    new_bet 7 (Sample.new_bet_form "33.33" "66.67")
      (Sample.parlay LegResult.WON LegResult.PENDING) = Ok (Created 2 db')
    /\ ~ In 2 (map Bet.id
                 (DB.bets (Sample.parlay LegResult.WON LegResult.PENDING)))
    /\ DB.persons db' = Sample.people
    /\ DB.settlements db' = []
    /\ exists bet new_legs new_participants,
         DB.bets db' =
         (DB.bets (Sample.parlay LegResult.WON LegResult.PENDING) ++ [bet])%list
         /\ DB.bet_legs db' =
            (DB.bet_legs (Sample.parlay LegResult.WON LegResult.PENDING)
             ++ new_legs)%list
         /\ DB.bet_participants db' =
            (DB.bet_participants (Sample.parlay LegResult.WON LegResult.PENDING)
             ++ new_participants)%list
         /\ Bet.id bet = 2
         /\ Bet.status bet = BetStatus.OPEN
         /\ Bet.settled_at bet = None
         /\ Bet.placed_at bet = 7
         /\ Bet.stake_cents bet = total_stake_of new_participants
         /\ new_legs <> []
         /\ Forall (fun l => BetLeg.bet_id l = 2
                             /\ BetLeg.result l = LegResult.PENDING) new_legs
         /\ new_participants <> []
         /\ Forall (fun p => BetParticipant.bet_id p = 2) new_participants.
Proof.
  eexists. split; [vm_compute; reflexivity|].
  apply (new_bet_appends 7 (Sample.new_bet_form "33.33" "66.67")
           (Sample.parlay LegResult.WON LegResult.PENDING)).
  vm_compute. reflexivity.
Defined.

Lemma filter_app_fresh {A} (key : A -> Z) (b : Z) (tbl added : list A) :
  Forall (fun x => key x <> b) tbl ->
  Forall (fun x => key x = b) added ->
  List.filter (fun x => key x =? b) (tbl ++ added) = added.
Proof.
  intros Ht Ha. rewrite List.filter_app.
  replace (List.filter (fun x => key x =? b) tbl) with (@nil A).
  - simpl. induction Ha as [|x xs Hx _ IH]; simpl; [reflexivity|].
    rewrite Hx, Z.eqb_refl, IH. reflexivity.
  - induction Ht as [|x xs Hx _ IH]; simpl; [reflexivity|].
    destruct (Z.eqb_spec (key x) b); [contradiction|exact IH].
Qed.

Lemma references_not_fresh {A} (key : A -> Z) (ids : list Z) (tbl : list A) :
  Forall (fun x => In (key x) ids) tbl ->
  Forall (fun x => key x <> fresh_id ids) tbl.
Proof.
  intros H. eapply List.Forall_impl; [|exact H].
  intros x Hin E. apply (fresh_id_not_in ids). rewrite <- E. exact Hin.
Qed.

Lemma find_app_fresh (b : Z) (tbl : list Bet.t) (bet : Bet.t) :
  ~ In b (map Bet.id tbl) -> Bet.id bet = b ->
  find (fun x => Bet.id x =? b) (tbl ++ [bet]) = Some bet.
Proof.
  intros Hn Hb. induction tbl as [|x tbl IH]; simpl.
  - now rewrite Hb, Z.eqb_refl.
  - destruct (Z.eqb_spec (Bet.id x) b) as [E|E].
    + exfalso. apply Hn. simpl. auto.
    + apply IH. intros H. apply Hn. simpl. auto.
Qed.

(** X6.  On a database whose legs and participants all belong to stored
    bets, the page an accepted request redirects to,
    [bet_detail(bet.id)], is found and shows the new bet with exactly the
    rows just created: an OPEN bet without [settled_at], whose stake is
    the sum of the shown participants' stakes, at least one leg, all of
    them PENDING, and at least one participant. *)
Theorem new_bet_then_bet_detail now f db bet_id db' :
  legs_reference_bets db ->
  participants_reference_bets db ->
  new_bet now f db = Ok (Created bet_id db') ->
  exists bet legs participants,
    bet_detail bet_id db' = Ok (bet, legs, participants)
    /\ Bet.status bet = BetStatus.OPEN
    /\ Bet.settled_at bet = None
    /\ Bet.stake_cents bet = total_stake_of participants
    /\ legs <> []
    /\ Forall (fun l => BetLeg.result l = LegResult.PENDING) legs
    /\ participants <> []
    /\ (exists old, DB.bet_legs db' = (old ++ legs)%list)
    /\ (exists old, DB.bet_participants db' = (old ++ participants)%list).
Proof.
  intros Hlr Hpr H.
  apply new_bet_Created in H
    as (n & legs_data & rows & _ & _ & Hlegs & _ & Hrows & -> & ->).
  set (b := fresh_id (map Bet.id (DB.bets db))).
  destruct (insert_legs_app b legs_data (DB.bet_legs db))
    as (new_legs & Hle & Hl).
  destruct (insert_participants_app b rows (DB.bet_participants db))
    as (new_ps & Hpe & Hp).
  assert (Hlb : Forall (fun l => BetLeg.bet_id l = b) new_legs).
  { clear -Hl. induction Hl as [|r l rs ls (H1 & _) _ IH]; constructor; auto. }
  assert (Hpb : Forall (fun p => BetParticipant.bet_id p = b) new_ps).
  { clear -Hp. induction Hp as [|r p rs ps (H1 & _) _ IH]; constructor; auto. }
  eexists _, new_legs, new_ps.
  unfold bet_detail, get_or_404, legs_of, participants_of. simpl.
  rewrite Hle, Hpe.
  erewrite find_app_fresh; [|apply fresh_id_not_in|reflexivity]. simpl.
  rewrite (filter_app_fresh BetLeg.bet_id),
    (filter_app_fresh BetParticipant.bet_id);
    try assumption; try (now apply references_not_fresh).
  split; [reflexivity|]. simpl.
  repeat split; eauto.
  - eapply stakes_total; eauto.
  - eapply Forall2_nonempty; eauto.
  - clear -Hl. induction Hl as [|r l rs ls (_ & H2 & _) _ IH];
      constructor; auto.
  - eapply Forall2_nonempty; eauto.
Qed.

Lemma new_bet_then_bet_detail_witness :
  exists bet legs participants,
    bet_detail 2
      (DB.mk Sample.people
         [Bet.mk 1 10000 BetStatus.OPEN 0 None;
          Bet.mk 2 10000 BetStatus.OPEN 7 None]
         [BetLeg.mk 1 1 "A v B" "A ML" 150 LegResult.WON;
          BetLeg.mk 2 1 "C v D" "C ML" (-200) LegResult.PENDING;
          BetLeg.mk 3 2 "A v B" "A ML" (-110) LegResult.PENDING]
         [BetParticipant.mk 1 1 1 6000; BetParticipant.mk 2 1 2 4000;
          BetParticipant.mk 3 2 1 3333; BetParticipant.mk 4 2 2 6667]
         [])
    = Ok (bet, legs, participants)
    /\ Bet.status bet = BetStatus.OPEN
    /\ Bet.settled_at bet = None
    /\ Bet.stake_cents bet = total_stake_of participants
    /\ legs <> []
    /\ Forall (fun l => BetLeg.result l = LegResult.PENDING) legs
    /\ participants <> []
    /\ (exists old,
           [BetLeg.mk 1 1 "A v B" "A ML" 150 LegResult.WON;
            BetLeg.mk 2 1 "C v D" "C ML" (-200) LegResult.PENDING;
            BetLeg.mk 3 2 "A v B" "A ML" (-110) LegResult.PENDING]
           = (old ++ legs)%list)
    /\ (exists old,
           [BetParticipant.mk 1 1 1 6000; BetParticipant.mk 2 1 2 4000;
            BetParticipant.mk 3 2 1 3333; BetParticipant.mk 4 2 2 6667]
           = (old ++ participants)%list).
Proof.
  apply (new_bet_then_bet_detail 7 (Sample.new_bet_form "33.33" "66.67")
           (Sample.parlay LegResult.WON LegResult.PENDING) 2).
  - repeat constructor.
  - repeat constructor.
  - vm_compute. reflexivity.
Defined.

Lemma update_leg_result_empty leg : update_leg_result ∅ leg = leg.
Proof.
  unfold update_leg_result. rewrite lookup_empty. reflexivity.
Qed.

Lemma update_legs_empty bet_id tbl : update_legs ∅ bet_id tbl = tbl.
Proof.
  unfold update_legs. induction tbl as [|l tbl IH]; simpl; [reflexivity|].
  rewrite IH, update_leg_result_empty. now destruct (BetLeg.bet_id l =? bet_id).
Qed.

Lemma all_pending_rules legs :
  legs <> [] ->
  Forall (fun l => BetLeg.result l = LegResult.PENDING) legs ->
  has_result LegResult.LOST legs = false
  /\ has_result LegResult.PENDING legs = true.
Proof.
  unfold has_result. intros Hne H. split.
  - clear Hne. induction H as [|l ls Hl _ IH]; simpl; [reflexivity|].
    rewrite Hl. simpl. exact IH.
  - destruct H as [|l ls Hl _]; [congruence|]. simpl. now rewrite Hl.
Qed.

(** X7.  On a database whose legs and participants all belong to stored
    bets, a bet that was just created is not changed by a settlement
    request that submits no result: the request succeeds and the stored
    state is the one the creation left, with the bet OPEN and no
    Settlement row added. *)
Theorem new_bet_then_settle_nothing now later f db bet_id db' :
  legs_reference_bets db ->
  participants_reference_bets db ->
  new_bet now f db = Ok (Created bet_id db') ->
  settle_bet later ∅ bet_id db' = Ok db'.
Proof.
  intros Hlr Hpr H.
  apply new_bet_Created in H
    as (n & legs_data & rows & _ & _ & Hlegs & _ & Hrows & -> & ->).
  set (b := fresh_id (map Bet.id (DB.bets db))).
  destruct (insert_legs_app b legs_data (DB.bet_legs db))
    as (new_legs & Hle & Hl).
  assert (Hlb : Forall (fun l => BetLeg.bet_id l = b) new_legs).
  { clear -Hl. induction Hl as [|r l rs ls (H1 & _) _ IH]; constructor; auto. }
  assert (Hlp : Forall (fun l => BetLeg.result l = LegResult.PENDING) new_legs).
  { clear -Hl. induction Hl as [|r l rs ls (_ & H2 & _) _ IH];
      constructor; auto. }
  assert (Hne : new_legs <> []) by (eapply Forall2_nonempty; eauto).
  set (bet := Bet.mk b (fold_right Z.add 0 (map pd_stake_cents rows))
                BetStatus.OPEN now None).
  assert (Hfind : find (fun x => Bet.id x =? b) (DB.bets db ++ [bet]) = Some bet).
  { apply find_app_fresh; [apply fresh_id_not_in | reflexivity]. }
  unfold settle_bet, get_or_404. simpl. fold bet. rewrite Hfind. simpl.
  rewrite update_legs_empty. unfold legs_of. rewrite Hle.
  rewrite (filter_app_fresh BetLeg.bet_id);
    [|now apply references_not_fresh | exact Hlb].
  unfold apply_rules.
  destruct (all_pending_rules _ Hne Hlp) as [-> ->]. simpl.
  rewrite (update_bet_id _ _ _ _ bet Hfind eq_refl). reflexivity.
Qed.

Lemma new_bet_then_settle_nothing_witness :
  settle_bet 9 ∅ 2
    (DB.mk Sample.people
       [Bet.mk 1 10000 BetStatus.OPEN 0 None;
        Bet.mk 2 10000 BetStatus.OPEN 7 None]
       [BetLeg.mk 1 1 "A v B" "A ML" 150 LegResult.WON;
        BetLeg.mk 2 1 "C v D" "C ML" (-200) LegResult.PENDING;
        BetLeg.mk 3 2 "A v B" "A ML" (-110) LegResult.PENDING]
       [BetParticipant.mk 1 1 1 6000; BetParticipant.mk 2 1 2 4000;
        BetParticipant.mk 3 2 1 3333; BetParticipant.mk 4 2 2 6667]
       [])
  = Ok (DB.mk Sample.people
          [Bet.mk 1 10000 BetStatus.OPEN 0 None;
           Bet.mk 2 10000 BetStatus.OPEN 7 None]
          [BetLeg.mk 1 1 "A v B" "A ML" 150 LegResult.WON;
           BetLeg.mk 2 1 "C v D" "C ML" (-200) LegResult.PENDING;
           BetLeg.mk 3 2 "A v B" "A ML" (-110) LegResult.PENDING]
          [BetParticipant.mk 1 1 1 6000; BetParticipant.mk 2 1 2 4000;
           BetParticipant.mk 3 2 1 3333; BetParticipant.mk 4 2 2 6667]
          []).
Proof.
  apply (new_bet_then_settle_nothing 7 9 (Sample.new_bet_form "33.33" "66.67")
           (Sample.parlay LegResult.WON LegResult.PENDING) 2).
  - repeat constructor.
  - repeat constructor.
  - vm_compute. reflexivity.
Defined.

Lemma in_range i n : In i (range n) -> 0 <= i < n.
Proof.
  unfold range. intros H. apply in_map_iff in H as (k & <- & Hk).
  apply in_seq in Hk. lia.
Qed.




(* ===================================================================== *)
(** * bet_preview                                                         *)
(* ===================================================================== *)




Lemma int_of_string_Raise s e : int_of_string s = Raise e -> e = ValueError.
Proof.
  unfold int_of_string. destruct (sign (lstrip s)) as [neg s1].
  destruct (digitpart 0 s1) as [[[v c] rest]|]; [|now inversion 1].
  destruct (all_space rest); now inversion 1.
Qed.

Lemma float_of_string_Raise s e : float_of_string s = Raise e -> e = ValueError.
Proof.
  unfold float_of_string. destruct (sign (lstrip s)) as [neg s1].
  destruct (absfloatvalue s1) as [[x rest]|]; [|now inversion 1].
  destruct (all_space rest); now inversion 1.
Qed.

Lemma SFeqb_one x : SFeqb x SF_one = true -> x = SF_one.
Proof.
  unfold SFeqb, SFcompare, SF_one.
  destruct x as [s|s| |s m e]; try (intro; discriminate).
  { destruct s; intro; discriminate. }
  destruct s; [intro; discriminate|].
  destruct (e ?= -52) eqn:Ee; [|intro; discriminate..].
  apply Z.compare_eq in Ee. subst e.
  destruct (PosDef.Pos.compare_cont Eq m 4503599627370496) eqn:E;
    [|intro; discriminate..].
  intros _. apply (Pos.compare_eq m 4503599627370496) in E.
  rewrite E. reflexivity.
Qed.

Lemma above_one_not_one (d : float) :
  (1 <? d)%float = true -> (d =? 1)%float = false.
Proof.
  rewrite FloatAxioms.ltb_spec, FloatAxioms.eqb_spec.
  change (Prim2SF 1) with SF_one. intros Hlt.
  destruct (SFeqb (Prim2SF d) SF_one) eqn:E; [|reflexivity].
  apply SFeqb_one in E. rewrite E in Hlt. discriminate Hlt.
Qed.

(** The guard [decimal_odds > 1.0] keeps [decimal_to_american] from
    dividing by zero. *)
Lemma decimal_to_american_above_one d e :
  (1 <? d)%float = true -> decimal_to_american d = Raise e ->
  e = ValueError \/ e = OverflowError.
Proof.
  intros Hd. unfold decimal_to_american.
  destruct (2 <=? d)%float; [apply int_of_float_Raise|].
  unfold float_truediv.
  destruct (PrimFloat.is_zero (d - 1)%float) eqn:Hz.
  - apply sub_one_is_zero in Hz. apply above_one_not_one in Hd. congruence.
  - simpl. apply int_of_float_Raise.
Qed.

Lemma preview_stake_Raise f total person e :
  preview_stake f total person = Raise e -> e <> ZeroDivisionError.
Proof.
  unfold preview_stake. destruct (String.eqb _ ""); [discriminate|].
  intros H. apply bind_Raise in H as [H|(x & _ & H)].
  { apply float_of_string_Raise in H as ->. discriminate. }
  destruct (0 <? x)%float; [|discriminate].
  apply bind_Raise in H as [H|(c & _ & H)]; [|discriminate].
  apply int_of_float_Raise in H as [-> | ->]; discriminate.
Qed.

(** X10.  A preview can divide by zero in one way only: a leg below
    [leg_count] was submitted with odds that read as the integer 0.  The
    conversion of the combined odds to American odds, which divides by
    zero at 1.0, is only reached for combined odds above 1.0. *)
Theorem bet_preview_division_by_zero f db :
  bet_preview f db = Raise ZeroDivisionError ->
  exists i s,
    In i (range (match f !! "leg_count" with
                 | Some c => match int_of_string c with Ok n => n | _ => 0 end
                 | None => 0
                 end))
    /\ f !! leg_field i "_odds" = Some s
    /\ int_of_string s = Ok 0.
Proof.
  unfold bet_preview. intros H.
  apply bind_Raise in H as [H|(total & _ & H)].
  { apply fold_each_Raise in H as (p & t & _ & H).
    now apply preview_stake_Raise in H. }
  destruct (total =? 0); [discriminate|].
  apply bind_Raise in H as [H|(n & Hn & H)].
  { destruct (f !! "leg_count"); [|discriminate].
    apply int_of_string_Raise in H. discriminate. }
  apply bind_Raise in H as [H|(d & _ & H)].
  { apply fold_each_Raise in H as (i & d0 & Hin & H).
    unfold preview_leg in H.
    destruct (f !! leg_field i "_odds") as [s|] eqn:Hs; simpl in H;
      [|discriminate].
    destruct (negb (String.eqb s "")); [|discriminate].
    apply bind_Raise in H as [H|(a & Ha & H)].
    { apply int_of_string_Raise in H. discriminate. }
    apply bind_Raise in H as [H|(x & _ & H)]; [|discriminate].
    apply american_to_decimal_Raise in H as [[_ ->]|[H _]]; [|discriminate].
    exists i, s. repeat split; auto.
    destruct (f !! "leg_count") as [c|]; [rewrite Hn|inversion Hn; subst];
      exact Hin. }
  apply bind_Raise in H as [H|(p & _ & H)].
  { apply calculate_parlay_payout_Raise in H as [H|H]; discriminate. }
  apply bind_Raise in H as [H|(a & _ & H)].
  { destruct (1 <? d)%float eqn:Hd; [|discriminate].
    apply bind_Raise in H as [H|(x & _ & H)]; [|discriminate].
    apply (decimal_to_american_above_one _ _ Hd) in H as [H|H]; discriminate. }
  apply bind_Raise in H as [H|(x & _ & H)]; [|discriminate].
  apply int_truediv_division in H as [[_ H]|[H _]]; discriminate.
Qed.

Lemma bet_preview_division_by_zero_witness :
  exists i s,
    In i (range (match (<["leg_0_odds" := "0"]>
                          (Sample.new_bet_form "10" "")) !! "leg_count" with
                 | Some c => match int_of_string c with Ok n => n | _ => 0 end
                 | None => 0
                 end))
    /\ (<["leg_0_odds" := "0"]> (Sample.new_bet_form "10" ""))
         !! leg_field i "_odds" = Some s
    /\ int_of_string s = Ok 0.
Proof.
  apply (bet_preview_division_by_zero _ Sample.empty).
  vm_compute. reflexivity.
Defined.

(* ===================================================================== *)
(** * bet_preview, new_bet and the dashboard                              *)
(* ===================================================================== *)

Lemma stakes_sum_app (acc : list participant_data) r :
  fold_right Z.add 0 (map pd_stake_cents (acc ++ [r]))
  = fold_right Z.add 0 (map pd_stake_cents acc) + pd_stake_cents r.
Proof. induction acc as [|x acc IH]; simpl; lia. Qed.

(** The two loops over the persons read the same stakes. *)
Lemma preview_stake_read_stake f acc person out total :
  read_stake f acc person = Ok out ->
  preview_stake f total person
  = Ok (total + fold_right Z.add 0 (map pd_stake_cents out)
        - fold_right Z.add 0 (map pd_stake_cents acc)).
Proof.
  unfold read_stake, preview_stake.
  destruct (String.eqb _ ""); [intros H; inversion H; f_equal; lia|].
  destruct (float_of_string _) as [x|e]; simpl; [|discriminate].
  destruct (0 <? x)%float; [|intros H; inversion H; f_equal; lia].
  destruct (int_of_float _) as [c|e]; simpl; [|discriminate].
  intros H; inversion H. rewrite stakes_sum_app. simpl. f_equal. lia.
Qed.

Lemma preview_stakes_read_stakes f persons : forall acc out total,
  fold_each (read_stake f) persons acc = Ok out ->
  fold_each (preview_stake f) persons total
  = Ok (total + fold_right Z.add 0 (map pd_stake_cents out)
        - fold_right Z.add 0 (map pd_stake_cents acc)).
Proof.
  induction persons as [|p ps IH]; simpl; intros acc out total H.
  - inversion H. f_equal. lia.
  - apply bind_Ok in H as (mid & Hmid & H).
    rewrite (preview_stake_read_stake _ _ _ _ total Hmid). simpl.
    rewrite (IH _ _ _ H). f_equal. lia.
Qed.

(** The two loops over the legs multiply the same odds, when no leg has
    odds but lacks a matchup or a description. *)
Lemma preview_legs_read_legs f l : forall acc out,
  Forall (fun i => truthy (f !! leg_field i "_odds") = true ->
                   truthy (f !! leg_field i "_matchup")
                   && truthy (f !! leg_field i "_bet") = true) l ->
  fold_each (read_leg f) l acc = Ok out ->
  exists new,
    out = (acc ++ new)%list
    /\ forall d,
         fold_each (preview_leg f) l d
         = fold_each
             (fun decimal_odds r =>
                x <- american_to_decimal (ld_american_odds r) ;;
                Ok (decimal_odds * x)%float)
             new d.
Proof.
  induction l as [|i l IH]; intros acc out Hl H; simpl in H.
  - inversion H. exists []. rewrite app_nil_r. auto.
  - inversion Hl as [|? ? Hi Hl']; subst.
    apply bind_Ok in H as (mid & Hmid & H).
    unfold read_leg in Hmid.
    destruct (truthy (f !! leg_field i "_odds")) eqn:Ho.
    + rewrite (Hi eq_refl) in Hmid. simpl in Hmid.
      apply bind_Ok in Hmid as (odds & Hodds & Hmid).
      inversion Hmid; subst mid.
      destruct (IH _ _ Hl' H) as (new & -> & Hnew).
      eexists (_ :: new). split; [rewrite <- app_assoc; reflexivity|].
      intros d. simpl. unfold preview_leg at 1. rewrite Ho, Hodds. simpl.
      destruct (american_to_decimal odds); simpl; [apply Hnew|reflexivity].
    + rewrite andb_false_r in Hmid. inversion Hmid; subst mid.
      destruct (IH _ _ Hl' H) as (new & -> & Hnew).
      exists new. split; [reflexivity|].
      intros d. simpl. unfold preview_leg at 1. rewrite Ho. simpl.
      apply Hnew.
Qed.

Lemma potential_odds_rows (rows : list leg_data) (legs : list BetLeg.t) :
  Forall2 (fun r l => BetLeg.american_odds l = ld_american_odds r)
    rows legs ->
  forall d,
    fold_each
      (fun decimal_odds leg =>
         leg_decimal <- american_to_decimal (BetLeg.american_odds leg) ;;
         Ok (decimal_odds * leg_decimal)%float)
      legs d
    = fold_each
        (fun decimal_odds r =>
           x <- american_to_decimal (ld_american_odds r) ;;
           Ok (decimal_odds * x)%float)
        rows d.
Proof.
  induction 1 as [|r l rows legs Hrl _ IH]; intros d; simpl; [reflexivity|].
  rewrite Hrl. destruct (american_to_decimal _); simpl; [apply IH|reflexivity].
Qed.

(** X11.  What the preview promised is what the dashboard shows once the
    bet is created.  On a database whose legs and participants all belong
    to stored bets, when the same form is previewed and accepted, and no
    leg below [leg_count] has odds but lacks a matchup or a description,
    the dashboard entry of the new bet shows the legs and participants
    just created, the bet's stake as the total stake, and as potential
    payout the cents and dollars of the preview. *)
Theorem new_bet_preview_is_dashboard_payout now f db leg_count bet_id db' p d a :
  legs_reference_bets db ->
  participants_reference_bets db ->
  (match f !! "leg_count" with
   | Some s => int_of_string s
   | None => Ok 0
   end) = Ok leg_count ->
  (forall i, 0 <= i < leg_count ->
             truthy (f !! leg_field i "_odds") = true ->
             truthy (f !! leg_field i "_matchup")
             && truthy (f !! leg_field i "_bet") = true) ->
  new_bet now f db = Ok (Created bet_id db') ->
  bet_preview f db = Ok (Payout p d a) ->
  exists bet,
    bet_row bet_id db' = Some bet
    /\ Bet.status bet = BetStatus.OPEN
    /\ open_bet_entry bet db'
       = (stake_dollars <- int_truediv (Bet.stake_cents bet) 100 ;;
          Ok {| obd_bet := bet;
                obd_legs := legs_of bet_id (DB.bet_legs db');
                obd_participants :=
                  participants_of bet_id (DB.bet_participants db');
                obd_total_stake_cents := Bet.stake_cents bet;
                obd_total_stake_dollars := stake_dollars;
                obd_potential_payout_cents := p;
                obd_potential_payout_dollars := d |}).
Proof.
  intros Hlr Hpr Hcount Hcomplete H Hprev.
  apply new_bet_Created in H
    as (n & legs_data & rows & Hn & Hlegs & _ & Hrows & _ & -> & ->).
  rewrite Hcount in Hn. injection Hn as <-.
  set (b := fresh_id (map Bet.id (DB.bets db))).
  destruct (insert_legs_app b legs_data (DB.bet_legs db))
    as (new_legs & Hle & Hl).
  destruct (insert_participants_app b rows (DB.bet_participants db))
    as (new_ps & Hpe & Hp).
  assert (Hlb : Forall (fun l => BetLeg.bet_id l = b) new_legs).
  { clear -Hl. induction Hl as [|r l rs ls (H1 & _) _ IH]; constructor; auto. }
  assert (Hpb : Forall (fun p => BetParticipant.bet_id p = b) new_ps).
  { clear -Hp. induction Hp as [|r q rs ps (H1 & _) _ IH]; constructor; auto. }
  assert (Hodds : Forall2 (fun r l => BetLeg.american_odds l = ld_american_odds r)
                    legs_data new_legs).
  { clear -Hl. induction Hl as [|r l rs ls (_ & _ & _ & _ & H5) _ IH];
      constructor; auto. }
  pose proof (stakes_total _ _ _ Hp) as Htotal.
  (* the preview *)
  unfold bet_preview in Hprev.
  rewrite (preview_stakes_read_stakes _ _ _ _ 0 Hrows) in Hprev.
  simpl in Hprev.
  replace (0 + fold_right Z.add 0 (map pd_stake_cents rows) - 0)
    with (total_stake_of new_ps) in Hprev by lia.
  destruct (total_stake_of new_ps =? 0); [discriminate|].
  rewrite Hcount in Hprev. simpl in Hprev.
  destruct (preview_legs_read_legs f (range leg_count) [] legs_data)
    as (new & Hnew & Hfold); [|exact Hlegs|].
  { apply List.Forall_forall. intros i Hi. apply Hcomplete.
    now apply in_range. }
  simpl in Hnew. subst new. rewrite Hfold in Hprev.
  rewrite <- (potential_odds_rows _ _ Hodds) in Hprev.
  apply bind_Ok in Hprev as (odds & Hpo & Hprev).
  apply bind_Ok in Hprev as (payout & Hpay & Hprev).
  apply bind_Ok in Hprev as (am & _ & Hprev).
  apply bind_Ok in Hprev as (dollars & Hdollars & Hprev).
  injection Hprev as -> -> ->.
  (* the dashboard entry *)
  eexists. unfold bet_row. simpl.
  split; [apply find_app_fresh; [apply fresh_id_not_in|reflexivity]|].
  split; [reflexivity|].
  unfold open_bet_entry, potential_odds, legs_of, participants_of. simpl.
  fold b. rewrite Hle, Hpe.
  rewrite (filter_app_fresh BetLeg.bet_id),
    (filter_app_fresh BetParticipant.bet_id);
    try assumption; try (now apply references_not_fresh).
  rewrite Hpo. simpl. rewrite Hpay. simpl. rewrite Htotal.
  destruct (int_truediv (total_stake_of new_ps) 100); simpl;
    [|reflexivity].
  rewrite Hdollars. reflexivity.
Qed.

Lemma new_bet_preview_is_dashboard_payout_witness :
  exists bet,
    bet_row 2
      (DB.mk Sample.people
         [Bet.mk 1 10000 BetStatus.OPEN 0 None;
          Bet.mk 2 10000 BetStatus.OPEN 7 None]
         [BetLeg.mk 1 1 "A v B" "A ML" 150 LegResult.WON;
          BetLeg.mk 2 1 "C v D" "C ML" (-200) LegResult.PENDING;
          BetLeg.mk 3 2 "A v B" "A ML" (-110) LegResult.PENDING]
         [BetParticipant.mk 1 1 1 6000; BetParticipant.mk 2 1 2 4000;
          BetParticipant.mk 3 2 1 3333; BetParticipant.mk 4 2 2 6667]
         [])
    = Some bet
    /\ Bet.status bet = BetStatus.OPEN
    /\ open_bet_entry bet
         (DB.mk Sample.people
            [Bet.mk 1 10000 BetStatus.OPEN 0 None;
             Bet.mk 2 10000 BetStatus.OPEN 7 None]
            [BetLeg.mk 1 1 "A v B" "A ML" 150 LegResult.WON;
             BetLeg.mk 2 1 "C v D" "C ML" (-200) LegResult.PENDING;
             BetLeg.mk 3 2 "A v B" "A ML" (-110) LegResult.PENDING]
            [BetParticipant.mk 1 1 1 6000; BetParticipant.mk 2 1 2 4000;
             BetParticipant.mk 3 2 1 3333; BetParticipant.mk 4 2 2 6667]
            [])
       = (stake_dollars <- int_truediv (Bet.stake_cents bet) 100 ;;
          Ok {| obd_bet := bet;
                obd_legs := [BetLeg.mk 3 2 "A v B" "A ML" (-110) LegResult.PENDING];
                obd_participants :=
                  [BetParticipant.mk 3 2 1 3333; BetParticipant.mk 4 2 2 6667];
                obd_total_stake_cents := Bet.stake_cents bet;
                obd_total_stake_dollars := stake_dollars;
                obd_potential_payout_cents := 19091;
                obd_potential_payout_dollars := 0x1.7dd1eb851eb85p+7 |}).
Proof.
  apply (new_bet_preview_is_dashboard_payout 7
           (Sample.new_bet_form "33.33" "66.67")
           (Sample.parlay LegResult.WON LegResult.PENDING) 1 2
           (DB.mk Sample.people
              [Bet.mk 1 10000 BetStatus.OPEN 0 None;
               Bet.mk 2 10000 BetStatus.OPEN 7 None]
              [BetLeg.mk 1 1 "A v B" "A ML" 150 LegResult.WON;
               BetLeg.mk 2 1 "C v D" "C ML" (-200) LegResult.PENDING;
               BetLeg.mk 3 2 "A v B" "A ML" (-110) LegResult.PENDING]
              [BetParticipant.mk 1 1 1 6000; BetParticipant.mk 2 1 2 4000;
               BetParticipant.mk 3 2 1 3333; BetParticipant.mk 4 2 2 6667]
              [])
           19091 0x1.7dd1eb851eb85p+7 (Some (-109))).
  - repeat constructor.
  - repeat constructor.
  - vm_compute. reflexivity.
  - intros i Hi _. assert (i = 0) as -> by lia. vm_compute. reflexivity.
  - vm_compute. reflexivity.
  - vm_compute. reflexivity.
Defined.

(* ===================================================================== *)
(** * The dashboard and the settlement                                    *)
(* ===================================================================== *)

Lemma legs_after_all_won f bet_id tbl :
  Forall (fun leg => f !! leg_result_key (BetLeg.id leg) = Some "won")
    (legs_of bet_id tbl) ->
  legs_of bet_id (update_legs f bet_id tbl)
  = map (fun leg => BetLeg.with_result leg LegResult.WON) (legs_of bet_id tbl).
Proof.
  unfold legs_of, update_legs.
  induction tbl as [|l tbl IH]; simpl; [reflexivity|].
  destruct (BetLeg.bet_id l =? bet_id) eqn:E; simpl; intros H.
  - inversion H as [|? ? Hl Htl]; subst.
    rewrite update_leg_result_spec, Hl.
    unfold submitted_result. rewrite decide_True by reflexivity.
    destruct l as [i b m d o r]. simpl in *. rewrite E. simpl.
    f_equal. apply IH. exact Htl.
  - rewrite E. apply IH. exact H.
Qed.

Lemma all_won_no_lost_no_pending legs :
  let won := map (fun leg => BetLeg.with_result leg LegResult.WON) legs in
  has_result LegResult.LOST won = false
  /\ has_result LegResult.PENDING won = false.
Proof.
  unfold has_result.
  induction legs as [|[i b m d o r] legs IH]; simpl; [auto|]. exact IH.
Qed.

Lemma combined_odds_all_won legs :
  combined_odds (map (fun leg => BetLeg.with_result leg LegResult.WON) legs)
  = potential_odds legs.
Proof.
  unfold combined_odds, potential_odds. generalize 1%float as d.
  induction legs as [|[i b m ds o r] legs IH]; intros d; simpl;
    [reflexivity|].
  destruct (american_to_decimal o); simpl; [apply IH|reflexivity].
Qed.

Lemma bet_row_id bet_id db bet : bet_row bet_id db = Some bet -> Bet.id bet = bet_id.
Proof.
  unfold bet_row. intros H. apply find_some in H as [_ H]. lia.
Qed.

(** X12.  The payout the dashboard shows for a bet is the one a settlement
    splits when every leg of the bet is submitted as won: the bet is
    stored as WON and each participant gets one Settlement row, whose
    [net_cents] is the float the code computes from the participant's
    stake and from the total stake and the potential payout of the
    dashboard entry. *)
Theorem settle_bet_splits_dashboard_payout now f bet_id db bet entry db' :
  bet_row bet_id db = Some bet ->
  open_bet_entry bet db = Ok entry ->
  Forall (fun leg => f !! leg_result_key (BetLeg.id leg) = Some "won")
    (legs_of bet_id (DB.bet_legs db)) ->
  settle_bet now f bet_id db = Ok db' ->
  exists added,
    bet_row bet_id db' = Some (set_status now BetStatus.WON bet)
    /\ DB.settlements db' = (DB.settlements db ++ added)%list
    /\ Forall2
         (fun p s =>
            Settlement.bet_id s = bet_id
            /\ Settlement.person_id s = BetParticipant.person_id p
            /\ exists x,
                 won_net_cents (obd_total_stake_cents entry)
                   (obd_potential_payout_cents entry)
                   (BetParticipant.stake_cents p) = Ok x
                 /\ Settlement.net_cents s = Py.Float x)
         (obd_participants entry) added.
Proof.
  intros Hbet Hentry Hwon H.
  pose proof (bet_row_id _ _ _ Hbet) as Hid.
  pose proof (legs_after_all_won _ _ _ Hwon) as Hlegs.
  fold (legs_after f bet_id db) in Hlegs.
  destruct (all_won_no_lost_no_pending (legs_of bet_id (DB.bet_legs db)))
    as [Hl Hp].
  rewrite <- Hlegs in Hl, Hp.
  destruct (settle_bet_all_winning _ _ _ _ _ _ Hbet Hl Hp H)
    as (odds & payout & added & Hodds & Hpay & Hrow & Hset & Hrows).
  rewrite Hlegs, combined_odds_all_won in Hodds.
  unfold open_bet_entry in Hentry. rewrite Hid, Hodds in Hentry.
  simpl in Hentry. rewrite Hpay in Hentry. simpl in Hentry.
  apply bind_Ok in Hentry as (sd & _ & Hentry).
  apply bind_Ok in Hentry as (pd & _ & Hentry).
  injection Hentry as <-. simpl.
  exists added. auto.
Qed.

Lemma settle_bet_splits_dashboard_payout_witness :
  exists entry db',
    open_bet_entry (Bet.mk 1 10000 BetStatus.OPEN 0 None)
      (Sample.parlay LegResult.PENDING LegResult.PENDING) = Ok entry
    /\ obd_potential_payout_cents entry = 37500
    /\ settle_bet 5 {[ leg_result_key 1 := "won"; leg_result_key 2 := "won" ]}
         1 (Sample.parlay LegResult.PENDING LegResult.PENDING) = Ok db'
    /\ exists added,
         bet_row 1 db'
         = Some (set_status 5 BetStatus.WON
                   (Bet.mk 1 10000 BetStatus.OPEN 0 None))
         /\ DB.settlements db' = ([] ++ added)%list
         /\ Forall2
              (fun p s =>
                 Settlement.bet_id s = 1
                 /\ Settlement.person_id s = BetParticipant.person_id p
                 /\ exists x,
                      won_net_cents (obd_total_stake_cents entry)
                        (obd_potential_payout_cents entry)
                        (BetParticipant.stake_cents p) = Ok x
                      /\ Settlement.net_cents s = Py.Float x)
              (obd_participants entry) added.
Proof.
  eexists. eexists.
  split; [vm_compute; reflexivity|]. split; [reflexivity|].
  split; [vm_compute; reflexivity|].
  apply (settle_bet_splits_dashboard_payout 5
           {[ leg_result_key 1 := "won"; leg_result_key 2 := "won" ]} 1
           (Sample.parlay LegResult.PENDING LegResult.PENDING)
           (Bet.mk 1 10000 BetStatus.OPEN 0 None)).
  - reflexivity.
  - vm_compute. reflexivity.
  - repeat constructor.
  - vm_compute. reflexivity.
Defined.

(* ===================================================================== *)
(** * The dashboard: exposure                                             *)
(* ===================================================================== *)

Lemma or_zero_sql_sum values : or_zero (sql_sum values) = fold_right Z.add 0 values.
Proof.
  destruct values as [|v values]; [reflexivity|].
  unfold sql_sum, or_zero.
  destruct (Z.eqb_spec (fold_right Z.add 0 (v :: values)) 0); congruence.
Qed.

Lemma stakes_app (l1 l2 : list BetParticipant.t) :
  fold_right Z.add 0 (map BetParticipant.stake_cents (l1 ++ l2))
  = fold_right Z.add 0 (map BetParticipant.stake_cents l1)
    + fold_right Z.add 0 (map BetParticipant.stake_cents l2).
Proof. induction l1 as [|x l1 IH]; simpl; lia. Qed.

(** The OPEN bets a participant row joins with. *)
Lemma open_rows_other now st bet_id k tbl :
  k <> bet_id ->
  List.filter (fun b => (Bet.id b =? k)
                        && BetStatus.eqb (Bet.status b) BetStatus.OPEN)
    (update_bet now st bet_id tbl)
  = List.filter (fun b => (Bet.id b =? k)
                          && BetStatus.eqb (Bet.status b) BetStatus.OPEN)
      tbl.
Proof.
  intros Hk. induction tbl as [|x tbl IH]; simpl; [reflexivity|].
  destruct (Z.eqb_spec (Bet.id x) bet_id) as [E|E]; simpl.
  - destruct (Z.eqb_spec (Bet.id x) k); [congruence|]. reflexivity.
  - rewrite IH. reflexivity.
Qed.

Lemma open_rows_absent k tbl :
  ~ In k (map Bet.id tbl) ->
  List.filter (fun b => (Bet.id b =? k)
                        && BetStatus.eqb (Bet.status b) BetStatus.OPEN) tbl
  = [].
Proof.
  induction tbl as [|x tbl IH]; simpl; [reflexivity|]. intros H.
  destruct (Z.eqb_spec (Bet.id x) k); [tauto|]. simpl. apply IH. tauto.
Qed.

Lemma open_rows_before bet_id tbl bet :
  List.NoDup (map Bet.id tbl) ->
  find (fun b => Bet.id b =? bet_id) tbl = Some bet ->
  List.filter (fun b => (Bet.id b =? bet_id)
                        && BetStatus.eqb (Bet.status b) BetStatus.OPEN) tbl
  = if BetStatus.eqb (Bet.status bet) BetStatus.OPEN then [bet] else [].
Proof.
  induction tbl as [|x tbl IH]; simpl; [discriminate|]. intros Hnd.
  inversion Hnd as [|? ? Hx Hnd']; subst.
  destruct (Z.eqb_spec (Bet.id x) bet_id) as [E|E]; simpl.
  - intros H. injection H as ->. rewrite <- E, (open_rows_absent _ _ Hx).
    reflexivity.
  - apply IH. exact Hnd'.
Qed.

Lemma open_rows_after now st bet_id tbl bet :
  List.NoDup (map Bet.id tbl) ->
  find (fun b => Bet.id b =? bet_id) tbl = Some bet ->
  List.filter (fun b => (Bet.id b =? bet_id)
                        && BetStatus.eqb (Bet.status b) BetStatus.OPEN)
    (update_bet now st bet_id tbl)
  = if BetStatus.eqb st BetStatus.OPEN then [set_status now st bet] else [].
Proof.
  induction tbl as [|x tbl IH]; simpl; [discriminate|]. intros Hnd.
  inversion Hnd as [|? ? Hx Hnd']; subst.
  destruct (Z.eqb_spec (Bet.id x) bet_id) as [E|E]; simpl.
  - intros H. injection H as ->. rewrite <- E, Z.eqb_refl. simpl.
    rewrite (open_rows_absent _ _ Hx). reflexivity.
  - destruct (Z.eqb_spec (Bet.id x) bet_id); [contradiction|]. simpl.
    apply IH. exact Hnd'.
Qed.

(** The stakes of the rows of [BetParticipant JOIN Bet] with an OPEN bet
    that pass a further filter [q], before and after the status of the
    OPEN bet [bet_id] is set to [st]. *)
Lemma open_stakes_after now st bet_id bets bet (q : BetParticipant.t -> bool)
    (ps : list BetParticipant.t) :
  List.NoDup (map Bet.id bets) ->
  find (fun b => Bet.id b =? bet_id) bets = Some bet ->
  Bet.status bet = BetStatus.OPEN ->
  st <> BetStatus.OPEN ->
  fold_right Z.add 0
    (map BetParticipant.stake_cents
       (List.filter q
          (flat_map
             (fun p =>
                map (fun _ => p)
                  (List.filter
                     (fun b => (Bet.id b =? BetParticipant.bet_id p)
                               && BetStatus.eqb (Bet.status b) BetStatus.OPEN)
                     (update_bet now st bet_id bets)))
             ps)))
  = fold_right Z.add 0
      (map BetParticipant.stake_cents
         (List.filter q
            (flat_map
               (fun p =>
                  map (fun _ => p)
                    (List.filter
                       (fun b => (Bet.id b =? BetParticipant.bet_id p)
                                 && BetStatus.eqb (Bet.status b) BetStatus.OPEN)
                       bets))
               ps)))
    - fold_right Z.add 0
        (map BetParticipant.stake_cents
           (List.filter q (participants_of bet_id ps))).
Proof.
  intros Hnd Hbet Hopen Hst. unfold participants_of.
  induction ps as [|p ps IH]; simpl; [reflexivity|].
  rewrite !List.filter_app, !stakes_app, IH.
  destruct (Z.eqb_spec (BetParticipant.bet_id p) bet_id) as [E|E].
  - rewrite E, (open_rows_after _ _ _ _ _ Hnd Hbet),
      (open_rows_before _ _ _ Hnd Hbet), Hopen.
    destruct st; try contradiction; simpl;
      destruct (q p); simpl; lia.
  - rewrite (open_rows_other _ _ _ _ _ E). lia.
Qed.

Lemma filter_all {A} (l : list A) : List.filter (fun _ => true) l = l.
Proof. induction l as [|x l IH]; simpl; [reflexivity|]. now rewrite IH. Qed.

Lemma settle_bet_bets now f bet_id db db' :
  settle_bet now f bet_id db = Ok db' ->
  DB.bets db'
  = update_bet now (status_of_legs (legs_after f bet_id db)) bet_id (DB.bets db)
  /\ DB.bet_participants db' = DB.bet_participants db.
Proof.
  unfold settle_bet. intros H.
  apply bind_Ok in H as (b & _ & H).
  apply bind_Ok in H as ([st rows] & Hrules & H).
  apply apply_rules_status in Hrules. injection H as <-. simpl.
  rewrite Hrules. auto.
Qed.

(** X13.  On a bets table without duplicate keys, a settlement that takes
    an OPEN bet out of the OPEN status (a leg is LOST, or no leg is
    PENDING) lowers the total exposure of the dashboard by the total of
    the bet's stakes, and the exposure of every person by the stakes the
    person has in the bet. *)
Theorem settle_bet_releases_exposure now f bet_id db bet db' :
  List.NoDup (map Bet.id (DB.bets db)) ->
  bet_row bet_id db = Some bet ->
  Bet.status bet = BetStatus.OPEN ->
  status_of_legs (legs_after f bet_id db) <> BetStatus.OPEN ->
  settle_bet now f bet_id db = Ok db' ->
  total_exposure db'
  = total_exposure db
    - total_stake_of (participants_of bet_id (DB.bet_participants db))
  /\ forall person,
       open_bet_total person db'
       = open_bet_total person db
         - total_stake_of
             (List.filter
                (fun p => BetParticipant.person_id p =? Person.id person)
                (participants_of bet_id (DB.bet_participants db))).
Proof.
  intros Hnd Hbet Hopen Hst H.
  apply settle_bet_bets in H as [Hbets Hps].
  unfold total_exposure, open_bet_total, open_participations, total_stake_of.
  rewrite Hbets, Hps. split.
  - rewrite !or_zero_sql_sum.
    pose proof (open_stakes_after now _ bet_id _ bet (fun _ => true)
                  (DB.bet_participants db) Hnd Hbet Hopen Hst) as E.
    rewrite !filter_all in E. exact E.
  - intros person. rewrite !or_zero_sql_sum.
    exact (open_stakes_after now _ bet_id _ bet _
             (DB.bet_participants db) Hnd Hbet Hopen Hst).
Qed.

Lemma settle_bet_releases_exposure_witness :
  exists db',
    settle_bet 5 (Sample.submit 2 "lost") 1
      (Sample.parlay LegResult.WON LegResult.PENDING) = Ok db'
    /\ total_exposure (Sample.parlay LegResult.WON LegResult.PENDING) = 10000
    /\ total_exposure db'
       = total_exposure (Sample.parlay LegResult.WON LegResult.PENDING)
         - total_stake_of
             (participants_of 1
                (DB.bet_participants
                   (Sample.parlay LegResult.WON LegResult.PENDING)))
    /\ forall person,
         open_bet_total person db'
         = open_bet_total person
             (Sample.parlay LegResult.WON LegResult.PENDING)
           - total_stake_of
               (List.filter
                  (fun p => BetParticipant.person_id p =? Person.id person)
                  (participants_of 1
                     (DB.bet_participants
                        (Sample.parlay LegResult.WON LegResult.PENDING)))).
Proof.
  eexists. split; [vm_compute; reflexivity|]. split; [reflexivity|].
  apply (settle_bet_releases_exposure 5 (Sample.submit 2 "lost") 1
           (Sample.parlay LegResult.WON LegResult.PENDING)
           (Bet.mk 1 10000 BetStatus.OPEN 0 None)).
  - apply List.NoDup_cons; [simpl; lia|]. apply List.NoDup_nil.
  - reflexivity.
  - reflexivity.
  - vm_compute. discriminate.
  - vm_compute. reflexivity.
Defined.

Lemma in_open_participations db p :
  In p (open_participations db) -> In p (DB.bet_participants db).
Proof.
  unfold open_participations. intros H.
  apply in_flat_map in H as (q & Hq & H).
  apply in_map_iff in H as (b & <- & _). exact Hq.
Qed.

Lemma sum_add {A} (g h : A -> Z) (l : list A) :
  fold_right Z.add 0 (map (fun x => g x + h x) l)
  = fold_right Z.add 0 (map g l) + fold_right Z.add 0 (map h l).
Proof. induction l as [|x l IH]; simpl; lia. Qed.

Lemma sum_one_person (persons : list Person.t) (k v : Z) :
  List.NoDup (map Person.id persons) ->
  In k (map Person.id persons) ->
  fold_right Z.add 0
    (map (fun person => if k =? Person.id person then v else 0) persons)
  = v.
Proof.
  induction persons as [|x persons IH]; simpl; [tauto|].
  intros Hnd Hin. inversion Hnd as [|? ? Hx Hnd']; subst.
  destruct (Z.eqb_spec k (Person.id x)) as [E|E].
  - assert (Hrest :
      fold_right Z.add 0
        (map (fun person => if k =? Person.id person then v else 0) persons)
      = 0).
    { rewrite <- E in Hx. clear -Hx.
      induction persons as [|y persons IH]; simpl; [reflexivity|].
      simpl in Hx.
      destruct (Z.eqb_spec k (Person.id y));
        [exfalso; apply Hx; left; congruence|].
      rewrite IH; [reflexivity|]. intros H. apply Hx. right. exact H. }
    lia.
  - destruct Hin as [Hin|Hin]; [congruence|]. rewrite IH; auto.
Qed.

Lemma stakes_by_person (persons : list Person.t) (l : list BetParticipant.t) :
  List.NoDup (map Person.id persons) ->
  Forall (fun p => In (BetParticipant.person_id p) (map Person.id persons)) l ->
  fold_right Z.add 0
    (map (fun person =>
            fold_right Z.add 0
              (map BetParticipant.stake_cents
                 (List.filter
                    (fun p => BetParticipant.person_id p =? Person.id person)
                    l)))
       persons)
  = fold_right Z.add 0 (map BetParticipant.stake_cents l).
Proof.
  intros Hnd. induction 1 as [|p l Hp _ IH].
  - simpl. clear Hnd. induction persons as [|x persons IH]; simpl; lia.
  - simpl. rewrite <- IH.
    pose proof (sum_one_person persons (BetParticipant.person_id p)
                  (BetParticipant.stake_cents p) Hnd Hp) as E.
    etransitivity; [|rewrite <- E at 1; apply sum_add].
    f_equal. apply map_ext. intros person.
    destruct (BetParticipant.person_id p =? Person.id person); simpl; lia.
Qed.

(** X14.  When no two persons share a key and every participant row names
    a stored person, the exposures the dashboard shows per person add up
    to the total exposure it shows. *)
Theorem dashboard_exposures_add_up db :
  List.NoDup (map Person.id (DB.persons db)) ->
  Forall (fun p => In (BetParticipant.person_id p)
                     (map Person.id (DB.persons db)))
    (DB.bet_participants db) ->
  fold_right Z.add 0
    (map (fun person => open_bet_total person db) (DB.persons db))
  = total_exposure db.
Proof.
  intros Hnd Hps. unfold total_exposure. rewrite or_zero_sql_sum.
  rewrite <- (stakes_by_person (DB.persons db) (open_participations db) Hnd).
  - f_equal. apply map_ext. intros person. unfold open_bet_total.
    apply or_zero_sql_sum.
  - apply List.Forall_forall. intros p Hp.
    apply in_open_participations in Hp.
    rewrite List.Forall_forall in Hps. auto.
Qed.

Lemma dashboard_exposures_add_up_witness :
  fold_right Z.add 0
    (map (fun person =>
            open_bet_total person
              (Sample.parlay LegResult.WON LegResult.PENDING))
       Sample.people)
  = total_exposure (Sample.parlay LegResult.WON LegResult.PENDING).
Proof.
  apply (dashboard_exposures_add_up
           (Sample.parlay LegResult.WON LegResult.PENDING)).
  - apply List.NoDup_cons; [simpl; lia|].
    apply List.NoDup_cons; [simpl; lia|]. apply List.NoDup_nil.
  - constructor; [simpl; lia|]. constructor; [simpl; lia|]. constructor.
Defined.

Lemma open_participations_old b bets bet (ps : list BetParticipant.t) :
  Bet.id bet = b ->
  Forall (fun p => BetParticipant.bet_id p <> b) ps ->
  flat_map
    (fun p =>
       map (fun _ => p)
         (List.filter
            (fun x => (Bet.id x =? BetParticipant.bet_id p)
                      && BetStatus.eqb (Bet.status x) BetStatus.OPEN)
            (bets ++ [bet])))
    ps
  = flat_map
      (fun p =>
         map (fun _ => p)
           (List.filter
              (fun x => (Bet.id x =? BetParticipant.bet_id p)
                        && BetStatus.eqb (Bet.status x) BetStatus.OPEN)
              bets))
      ps.
Proof.
  intros Hb. induction 1 as [|p ps Hp _ IH]; simpl; [reflexivity|].
  rewrite IH, List.filter_app. simpl.
  destruct (Z.eqb_spec (Bet.id bet) (BetParticipant.bet_id p));
    [congruence|].
  simpl. rewrite app_nil_r. reflexivity.
Qed.

Lemma open_participations_new b bets bet (ps : list BetParticipant.t) :
  Bet.id bet = b ->
  Bet.status bet = BetStatus.OPEN ->
  ~ In b (map Bet.id bets) ->
  Forall (fun p => BetParticipant.bet_id p = b) ps ->
  flat_map
    (fun p =>
       map (fun _ => p)
         (List.filter
            (fun x => (Bet.id x =? BetParticipant.bet_id p)
                      && BetStatus.eqb (Bet.status x) BetStatus.OPEN)
            (bets ++ [bet])))
    ps
  = ps.
Proof.
  intros Hb Hopen Hfresh. induction 1 as [|p ps Hp _ IH]; simpl;
    [reflexivity|].
  rewrite IH, List.filter_app, Hp, (open_rows_absent _ _ Hfresh). simpl.
  rewrite Hb, Z.eqb_refl, Hopen. reflexivity.
Qed.

(** X15.  On a database whose participants all belong to stored bets, an
    accepted bet-creation request raises the total exposure of the
    dashboard by the stake of the new bet, and the exposure of every
    person by the stakes the person has in the new bet. *)
Theorem new_bet_adds_exposure now f db bet_id db' :
  participants_reference_bets db ->
  new_bet now f db = Ok (Created bet_id db') ->
  exists bet,
    bet_row bet_id db' = Some bet
    /\ total_exposure db' = total_exposure db + Bet.stake_cents bet
    /\ forall person,
         open_bet_total person db'
         = open_bet_total person db
           + total_stake_of
               (List.filter
                  (fun p => BetParticipant.person_id p =? Person.id person)
                  (participants_of bet_id (DB.bet_participants db'))).
Proof.
  intros Hpr H.
  apply new_bet_Created in H
    as (n & legs_data & rows & _ & _ & _ & _ & _ & -> & ->).
  set (b := fresh_id (map Bet.id (DB.bets db))).
  destruct (insert_participants_app b rows (DB.bet_participants db))
    as (new_ps & Hpe & Hp).
  assert (Hpb : Forall (fun p => BetParticipant.bet_id p = b) new_ps).
  { clear -Hp. induction Hp as [|r q rs ps (H1 & _) _ IH]; constructor; auto. }
  pose proof (stakes_total _ _ _ Hp) as Htotal.
  pose proof (fresh_id_not_in (map Bet.id (DB.bets db))) as Hfresh.
  fold b in Hfresh.
  assert (Hopen :
    open_participations
      (DB.mk (DB.persons db)
         (DB.bets db ++
          [Bet.mk b (fold_right Z.add 0 (map pd_stake_cents rows))
             BetStatus.OPEN now None])
         (insert_legs (DB.bet_legs db) b legs_data)
         (insert_participants (DB.bet_participants db) b rows)
         (DB.settlements db))
    = (open_participations db ++ new_ps)%list).
  { unfold open_participations. simpl. rewrite Hpe, flat_map_app.
    rewrite (open_participations_old b), (open_participations_new b);
      auto.
    now apply references_not_fresh. }
  eexists. unfold bet_row. simpl.
  split; [apply find_app_fresh; [exact Hfresh|reflexivity]|].
  unfold total_exposure, open_bet_total. rewrite Hopen. simpl. split.
  - rewrite !or_zero_sql_sum, stakes_app, Htotal. reflexivity.
  - intros person. rewrite !or_zero_sql_sum, List.filter_app, stakes_app.
    unfold participants_of. rewrite Hpe.
    rewrite (filter_app_fresh BetParticipant.bet_id); auto.
    now apply references_not_fresh.
Qed.

Lemma new_bet_adds_exposure_witness :
  exists bet,
    bet_row 2
      (DB.mk Sample.people
         [Bet.mk 1 10000 BetStatus.OPEN 0 None;
          Bet.mk 2 10000 BetStatus.OPEN 7 None]
         [BetLeg.mk 1 1 "A v B" "A ML" 150 LegResult.WON;
          BetLeg.mk 2 1 "C v D" "C ML" (-200) LegResult.PENDING;
          BetLeg.mk 3 2 "A v B" "A ML" (-110) LegResult.PENDING]
         [BetParticipant.mk 1 1 1 6000; BetParticipant.mk 2 1 2 4000;
          BetParticipant.mk 3 2 1 3333; BetParticipant.mk 4 2 2 6667]
         [])
    = Some bet
    /\ total_exposure
         (DB.mk Sample.people
            [Bet.mk 1 10000 BetStatus.OPEN 0 None;
             Bet.mk 2 10000 BetStatus.OPEN 7 None]
            [BetLeg.mk 1 1 "A v B" "A ML" 150 LegResult.WON;
             BetLeg.mk 2 1 "C v D" "C ML" (-200) LegResult.PENDING;
             BetLeg.mk 3 2 "A v B" "A ML" (-110) LegResult.PENDING]
            [BetParticipant.mk 1 1 1 6000; BetParticipant.mk 2 1 2 4000;
             BetParticipant.mk 3 2 1 3333; BetParticipant.mk 4 2 2 6667]
            [])
       = total_exposure (Sample.parlay LegResult.WON LegResult.PENDING)
         + Bet.stake_cents bet
    /\ forall person,
         open_bet_total person
           (DB.mk Sample.people
              [Bet.mk 1 10000 BetStatus.OPEN 0 None;
               Bet.mk 2 10000 BetStatus.OPEN 7 None]
              [BetLeg.mk 1 1 "A v B" "A ML" 150 LegResult.WON;
               BetLeg.mk 2 1 "C v D" "C ML" (-200) LegResult.PENDING;
               BetLeg.mk 3 2 "A v B" "A ML" (-110) LegResult.PENDING]
              [BetParticipant.mk 1 1 1 6000; BetParticipant.mk 2 1 2 4000;
               BetParticipant.mk 3 2 1 3333; BetParticipant.mk 4 2 2 6667]
              [])
         = open_bet_total person
             (Sample.parlay LegResult.WON LegResult.PENDING)
           + total_stake_of
               (List.filter
                  (fun p => BetParticipant.person_id p =? Person.id person)
                  [BetParticipant.mk 3 2 1 3333;
                   BetParticipant.mk 4 2 2 6667]).
Proof.
  apply (new_bet_adds_exposure 7 (Sample.new_bet_form "33.33" "66.67")
           (Sample.parlay LegResult.WON LegResult.PENDING) 2
           (DB.mk Sample.people
              [Bet.mk 1 10000 BetStatus.OPEN 0 None;
               Bet.mk 2 10000 BetStatus.OPEN 7 None]
              [BetLeg.mk 1 1 "A v B" "A ML" 150 LegResult.WON;
               BetLeg.mk 2 1 "C v D" "C ML" (-200) LegResult.PENDING;
               BetLeg.mk 3 2 "A v B" "A ML" (-110) LegResult.PENDING]
              [BetParticipant.mk 1 1 1 6000; BetParticipant.mk 2 1 2 4000;
               BetParticipant.mk 3 2 1 3333; BetParticipant.mk 4 2 2 6667]
              [])).
  - repeat constructor.
  - vm_compute. reflexivity.
Defined.

(* ===================================================================== *)
(** * edit_person                                                         *)
(* ===================================================================== *)







Lemma all_space_rstrip s : all_space s = true -> rstrip s = "".
Proof.
  unfold all_space. induction s as [|c s IH]; simpl; [reflexivity|].
  destruct (is_space c); [|discriminate]. intros H. rewrite (IH H).
  reflexivity.
Qed.











(* ===================================================================== *)
(** * normalize_enums and seed_db                                         *)
(* ===================================================================== *)

(** The UPDATE statements of one loop act on each value on its own. *)
Lemma run_updates_pointwise ms : forall column,
  run_updates ms column
  = map (fun v =>
           fold_left
             (fun v m => if String.eqb v (fst m) then snd m else v) ms v)
      column.
Proof.
  unfold run_updates.
  induction ms as [|m ms IH]; intros column; simpl.
  - symmetry. apply map_id.
  - rewrite IH. unfold sql_update. rewrite map_map. reflexivity.
Qed.

Lemma mappings_canonical v :
  fold_left (fun v m => if String.eqb v (fst m) then snd m else v) mappings v
  = canonical mappings v.
Proof. unfold canonical. simpl. by_cases_on v. Qed.

Lemma mappings_leg_canonical v :
  fold_left (fun v m => if String.eqb v (fst m) then snd m else v)
    mappings_leg v
  = canonical mappings_leg v.
Proof. unfold canonical. simpl. by_cases_on v. Qed.

Lemma mappings_tx_canonical v :
  fold_left (fun v m => if String.eqb v (fst m) then snd m else v)
    mappings_tx v
  = canonical mappings_tx v.
Proof. unfold canonical. simpl. by_cases_on v. Qed.

(** X18.  Although the UPDATE statements run one after the other, no value
    is rewritten twice: in each of the three columns every value that is
    one of the legacy lower-case names of the column's list is replaced by
    the upper-case name paired with it, and every other value is kept. *)
Theorem normalize_enums_pointwise c :
  bet_status_text (normalize_enums c)
  = map (canonical mappings) (bet_status_text c)
  /\ bet_leg_result_text (normalize_enums c)
     = map (canonical mappings_leg) (bet_leg_result_text c)
  /\ transaction_type_text (normalize_enums c)
     = map (canonical mappings_tx) (transaction_type_text c).
Proof.
  unfold normalize_enums.
  cbn [bet_status_text bet_leg_result_text transaction_type_text].
  rewrite !run_updates_pointwise.
  repeat split; apply map_ext; intros v.
  - apply mappings_canonical.
  - apply mappings_leg_canonical.
  - apply mappings_tx_canonical.
Qed.

Lemma canonical_mappings_twice v :
  canonical mappings (canonical mappings v) = canonical mappings v
  /\ ~ In (canonical mappings v) (map fst mappings).
Proof.
  unfold canonical. simpl.
  destruct (String.eqb_spec v "open") as [->|H1];
    [split; [reflexivity|simpl; intuition discriminate]|].
  destruct (String.eqb_spec v "won") as [->|H2];
    [split; [reflexivity|simpl; intuition discriminate]|].
  destruct (String.eqb_spec v "lost") as [->|H3];
    [split; [reflexivity|simpl; intuition discriminate]|].
  destruct (String.eqb_spec v "void") as [->|H4];
    [split; [reflexivity|simpl; intuition discriminate]|].
  destruct (String.eqb_spec v "cashed_out") as [->|H5];
    [split; [reflexivity|simpl; intuition discriminate]|].
  simpl. split; [|simpl; intuition congruence].
  destruct (String.eqb_spec v "open"); [contradiction|].
  destruct (String.eqb_spec v "won"); [contradiction|].
  destruct (String.eqb_spec v "lost"); [contradiction|].
  destruct (String.eqb_spec v "void"); [contradiction|].
  destruct (String.eqb_spec v "cashed_out"); [contradiction|].
  reflexivity.
Qed.

Lemma canonical_mappings_leg_twice v :
  canonical mappings_leg (canonical mappings_leg v) = canonical mappings_leg v
  /\ ~ In (canonical mappings_leg v) (map fst mappings_leg).
Proof.
  unfold canonical. simpl.
  destruct (String.eqb_spec v "pending") as [->|H1];
    [split; [reflexivity|simpl; intuition discriminate]|].
  destruct (String.eqb_spec v "won") as [->|H2];
    [split; [reflexivity|simpl; intuition discriminate]|].
  destruct (String.eqb_spec v "lost") as [->|H3];
    [split; [reflexivity|simpl; intuition discriminate]|].
  destruct (String.eqb_spec v "void") as [->|H4];
    [split; [reflexivity|simpl; intuition discriminate]|].
  simpl. split; [|simpl; intuition congruence].
  destruct (String.eqb_spec v "pending"); [contradiction|].
  destruct (String.eqb_spec v "won"); [contradiction|].
  destruct (String.eqb_spec v "lost"); [contradiction|].
  destruct (String.eqb_spec v "void"); [contradiction|].
  reflexivity.
Qed.

Lemma canonical_mappings_tx_twice v :
  canonical mappings_tx (canonical mappings_tx v) = canonical mappings_tx v
  /\ ~ In (canonical mappings_tx v) (map fst mappings_tx).
Proof.
  unfold canonical. simpl.
  destruct (String.eqb_spec v "deposit") as [->|H1];
    [split; [reflexivity|simpl; intuition discriminate]|].
  destruct (String.eqb_spec v "withdraw") as [->|H2];
    [split; [reflexivity|simpl; intuition discriminate]|].
  destruct (String.eqb_spec v "adjustment") as [->|H3];
    [split; [reflexivity|simpl; intuition discriminate]|].
  simpl. split; [|simpl; intuition congruence].
  destruct (String.eqb_spec v "deposit"); [contradiction|].
  destruct (String.eqb_spec v "withdraw"); [contradiction|].
  destruct (String.eqb_spec v "adjustment"); [contradiction|].
  reflexivity.
Qed.

Lemma run_updates_twice ms (fixed : forall v,
    fold_left (fun v m => if String.eqb v (fst m) then snd m else v) ms v
    = canonical ms v)
    (twice : forall v,
       canonical ms (canonical ms v) = canonical ms v
       /\ ~ In (canonical ms v) (map fst ms)) column :
  run_updates ms (run_updates ms column) = run_updates ms column
  /\ Forall (fun v => ~ In v (map fst ms)) (run_updates ms column).
Proof.
  rewrite !run_updates_pointwise, map_map. split.
  - apply map_ext. intros v. rewrite !fixed. apply twice.
  - apply List.Forall_forall. intros v Hv.
    apply in_map_iff in Hv as (u & <- & _). rewrite fixed. apply twice.
Qed.

(** X19.  The normalisation is safe to run again: a second run changes
    nothing.  After a run no column holds one of the legacy lower-case
    names of its list any more. *)
Theorem normalize_enums_idempotent c :
  normalize_enums (normalize_enums c) = normalize_enums c
  /\ Forall (fun v => ~ In v (map fst mappings))
       (bet_status_text (normalize_enums c))
  /\ Forall (fun v => ~ In v (map fst mappings_leg))
       (bet_leg_result_text (normalize_enums c))
  /\ Forall (fun v => ~ In v (map fst mappings_tx))
       (transaction_type_text (normalize_enums c)).
Proof.
  destruct (run_updates_twice mappings mappings_canonical
              canonical_mappings_twice (bet_status_text c)) as [E1 F1].
  destruct (run_updates_twice mappings_leg mappings_leg_canonical
              canonical_mappings_leg_twice (bet_leg_result_text c))
    as [E2 F2].
  destruct (run_updates_twice mappings_tx mappings_tx_canonical
              canonical_mappings_tx_twice (transaction_type_text c))
    as [E3 F3].
  unfold normalize_enums.
  cbn [bet_status_text bet_leg_result_text transaction_type_text].
  rewrite E1, E2, E3. auto.
Qed.

(** X20.  Seeding is safe to run again.  A database that holds a person is
    left as it is, so a second run changes nothing; an empty one gets two
    persons with different keys; and only the persons table is ever
    written. *)
Theorem seed_db_idempotent db :
  seed_db (seed_db db) = seed_db db
  /\ (DB.persons db <> [] -> seed_db db = db)
  /\ (DB.persons db = [] ->
      exists ryan friend,
        DB.persons (seed_db db) = [ryan; friend]
        /\ Person.name ryan = "Ryan" /\ Person.name friend = "Friend"
        /\ Person.id ryan <> Person.id friend)
  /\ DB.bets (seed_db db) = DB.bets db
  /\ DB.bet_legs (seed_db db) = DB.bet_legs db
  /\ DB.bet_participants (seed_db db) = DB.bet_participants db
  /\ DB.settlements (seed_db db) = DB.settlements db.
Proof.
  unfold seed_db. destruct db as [persons bets legs ps ss]. simpl.
  destruct persons as [|p persons]; simpl.
  - repeat split; try congruence.
    intros _. eexists _, _. repeat split. simpl. unfold fresh_id. simpl. lia.
  - repeat split; try congruence.
Qed.

(* ===================================================================== *)
(** * settle_bet: the same request again                                  *)
(* ===================================================================== *)

Lemma update_leg_result_idempotent f leg :
  update_leg_result f (update_leg_result f leg) = update_leg_result f leg.
Proof.
  rewrite !update_leg_result_spec. destruct leg as [i b m d o r]. simpl.
  unfold BetLeg.with_result, submitted_result. simpl.
  repeat case_decide; reflexivity.
Qed.

Lemma update_leg_result_bet_id f leg :
  BetLeg.bet_id (update_leg_result f leg) = BetLeg.bet_id leg.
Proof. rewrite update_leg_result_spec. reflexivity. Qed.

Lemma update_legs_idempotent f bet_id tbl :
  update_legs f bet_id (update_legs f bet_id tbl) = update_legs f bet_id tbl.
Proof.
  unfold update_legs. rewrite map_map. apply map_ext. intros l.
  destruct (BetLeg.bet_id l =? bet_id) eqn:E.
  - rewrite update_leg_result_bet_id, E. apply update_leg_result_idempotent.
  - rewrite E. reflexivity.
Qed.

Lemma won_settlements_later now later bet_id total payout ps rows :
  for_each (won_settlement now bet_id total payout) ps = Ok rows ->
  for_each (won_settlement later bet_id total payout) ps
  = Ok (map (fun r => (fst (fst (fst r)), snd (fst (fst r)), snd (fst r),
                       later)) rows).
Proof.
  revert rows. induction ps as [|p ps IH]; simpl; intros rows H.
  - injection H as <-. reflexivity.
  - apply bind_Ok in H as (y & Hy & H).
    apply bind_Ok in H as (ys & Hys & H). injection H as <-.
    rewrite (IH _ Hys). unfold won_settlement in *.
    apply bind_Ok in Hy as (x & Hx & Hy). injection Hy as <-.
    rewrite Hx. reflexivity.
Qed.

(** The rules give the same outcome at another time, but for the time
    the rows carry. *)
Lemma apply_rules_later now later bet_id legs ps st rows :
  apply_rules now bet_id legs ps = Ok (st, rows) ->
  apply_rules later bet_id legs ps
  = Ok (st, map (fun r => (fst (fst (fst r)), snd (fst (fst r)), snd (fst r),
                           later)) rows).
Proof.
  unfold apply_rules.
  destruct (has_result LegResult.LOST legs).
  { intros H. injection H as <- <-. rewrite map_map. reflexivity. }
  destruct (has_result LegResult.PENDING legs).
  { intros H. injection H as <- <-. reflexivity. }
  destruct (all_winning legs).
  - intros H. apply bind_Ok in H as (d & -> & H). simpl.
    apply bind_Ok in H as (tp & -> & H). simpl.
    apply bind_Ok in H as (rs & Hrs & H). injection H as <- <-.
    rewrite (won_settlements_later _ later _ _ _ _ _ Hrs). reflexivity.
  - destruct (all_void legs); intros H; injection H as <- <-; reflexivity.
Qed.

Lemma stored_again later (rows : list new_settlement) added added' :
  Forall2 stored_as rows added ->
  Forall2 stored_as
    (map (fun r => (fst (fst (fst r)), snd (fst (fst r)), snd (fst r),
                    later)) rows)
    added' ->
  Forall2
    (fun s s' =>
       Settlement.bet_id s' = Settlement.bet_id s
       /\ Settlement.person_id s' = Settlement.person_id s
       /\ Settlement.net_cents s' = Settlement.net_cents s
       /\ Settlement.ts s' = later)
    added added'.
Proof.
  intros H. revert added'.
  induction H as [|r s rows added Hrs _ IH]; simpl; intros added' H';
    inversion H' as [|? s' ? added'' Hrs' Htl]; subst; constructor.
  - unfold stored_as in *. subst r. simpl in Hrs'.
    injection Hrs' as -> -> -> ->. auto.
  - apply IH. exact Htl.
Qed.

(** X21.  A settlement request that was stored can be sent again, at any
    later time: it succeeds again, leaves the legs and the status as the
    first run left them, and, there being no guard on the status, adds
    the same Settlement rows a second time, with the same bet, persons
    and amounts and the new time. *)
Theorem settle_bet_again now later f bet_id db db' :
  settle_bet now f bet_id db = Ok db' ->
  exists db'' bet' bet'' added added',
    settle_bet later f bet_id db' = Ok db''
    /\ DB.bet_legs db'' = DB.bet_legs db'
    /\ bet_row bet_id db' = Some bet'
    /\ bet_row bet_id db'' = Some bet''
    /\ Bet.status bet'' = Bet.status bet'
    /\ DB.settlements db' = (DB.settlements db ++ added)%list
    /\ DB.settlements db'' = (DB.settlements db' ++ added')%list
    /\ Forall2
         (fun s s' =>
            Settlement.bet_id s' = Settlement.bet_id s
            /\ Settlement.person_id s' = Settlement.person_id s
            /\ Settlement.net_cents s' = Settlement.net_cents s
            /\ Settlement.ts s' = later)
         added added'.
Proof.
  intros H. unfold settle_bet in H.
  apply bind_Ok in H as (bet & Hbet & H).
  apply bind_Ok in H as ([st rows] & Hrules & H).
  injection H as <-. simpl in *.
  unfold get_or_404 in Hbet.
  destruct (find _ (DB.bets db)) as [b0|] eqn:Hfind; [|discriminate].
  injection Hbet as ->.
  pose proof (find_update_bet now st _ _ _ Hfind) as Hfind'.
  pose proof (find_update_bet later st _ _ _ Hfind') as Hfind''.
  destruct (insert_settlements_app rows (DB.settlements db))
    as (added & Heq & Hall).
  destruct (insert_settlements_app
              (map (fun r => (fst (fst (fst r)), snd (fst (fst r)),
                              snd (fst r), later)) rows)
              (insert_settlements (DB.settlements db) rows))
    as (added' & Heq' & Hall').
  eexists _, _, _, added, added'.
  unfold settle_bet, get_or_404, bet_row. simpl.
  rewrite Hfind', update_legs_idempotent. simpl.
  rewrite (apply_rules_later _ later _ _ _ _ _ Hrules). simpl.
  split; [reflexivity|]. split; [reflexivity|].
  split; [reflexivity|]. split; [exact Hfind''|].
  split; [reflexivity|]. split; [exact Heq|]. split; [exact Heq'|].
  eapply stored_again; eauto.
Qed.

Lemma settle_bet_again_witness :
  exists db',
    settle_bet 5 (Sample.submit 1 "lost") 1
      (Sample.single LegResult.PENDING BetStatus.OPEN) = Ok db'
    /\ exists db'' bet' bet'' added added',
         settle_bet 9 (Sample.submit 1 "lost") 1 db' = Ok db''
         /\ DB.bet_legs db'' = DB.bet_legs db'
         /\ bet_row 1 db' = Some bet'
         /\ bet_row 1 db'' = Some bet''
         /\ Bet.status bet'' = Bet.status bet'
         /\ DB.settlements db' = ([] ++ added)%list
         /\ DB.settlements db'' = (DB.settlements db' ++ added')%list
         /\ Forall2
              (fun s s' =>
                 Settlement.bet_id s' = Settlement.bet_id s
                 /\ Settlement.person_id s' = Settlement.person_id s
                 /\ Settlement.net_cents s' = Settlement.net_cents s
                 /\ Settlement.ts s' = 9)
              added added'.
Proof.
  eexists. split; [vm_compute; reflexivity|].
  apply (settle_bet_again 5 9 (Sample.submit 1 "lost") 1
           (Sample.single LegResult.PENDING BetStatus.OPEN)).
  vm_compute. reflexivity.
Defined.

(* ===================================================================== *)
(** * Odds of 0: accepted by new_bet, fatal for the dashboard             *)
(* ===================================================================== *)

Lemma potential_odds_zero legs :
  (exists leg, In leg legs /\ BetLeg.american_odds leg = 0) ->
  exists e,
    potential_odds legs = Raise e
    /\ (e = ZeroDivisionError \/ e = OverflowError).
Proof.
  unfold potential_odds. generalize 1%float as d.
  induction legs as [|l legs IH]; intros d (leg & Hin & Hz); simpl in *;
    [contradiction|].
  destruct (american_to_decimal (BetLeg.american_odds l)) as [x|e] eqn:E;
    simpl.
  - apply IH. destruct Hin as [->|Hin]; [|eauto].
    rewrite Hz in E. discriminate E.
  - exists e. split; [reflexivity|].
    apply american_to_decimal_Raise in E as [[-> _]|[-> _]]; auto.
Qed.

Lemma potential_odds_division legs :
  potential_odds legs = Raise ZeroDivisionError ->
  exists leg, In leg legs /\ BetLeg.american_odds leg = 0.
Proof.
  unfold potential_odds. intros H.
  apply fold_each_Raise in H as (leg & d & Hin & H).
  apply bind_Raise in H as [H|(x & _ & H)]; [|discriminate].
  apply american_to_decimal_Raise in H as [[_ Hz]|[H _]]; [eauto|discriminate].
Qed.

(** X22.  The dashboard entry of a bet fails when one of the bet's legs is
    stored with the odds 0, whatever the results of the legs, and a
    division by zero in it has no other cause: the divisions by 100 and
    the payout never divide by zero. *)
Theorem open_bet_entry_zero_odds bet db :
  ((exists leg, In leg (legs_of (Bet.id bet) (DB.bet_legs db))
                /\ BetLeg.american_odds leg = 0) ->
   exists e, open_bet_entry bet db = Raise e
             /\ (e = ZeroDivisionError \/ e = OverflowError))
  /\ (open_bet_entry bet db = Raise ZeroDivisionError ->
      exists leg, In leg (legs_of (Bet.id bet) (DB.bet_legs db))
                  /\ BetLeg.american_odds leg = 0).
Proof.
  unfold open_bet_entry. split.
  - intros H. apply potential_odds_zero in H as (e & -> & He). eauto.
  - intros H. apply bind_Raise in H as [H|(d & _ & H)].
    { now apply potential_odds_division. }
    apply bind_Raise in H as [H|(p & _ & H)].
    { apply calculate_parlay_payout_Raise in H as [H|H]; discriminate. }
    apply bind_Raise in H as [H|(sd & _ & H)].
    { apply int_truediv_division in H as [[_ H]|[H _]]; discriminate. }
    apply bind_Raise in H as [H|(pd & _ & H)]; [|discriminate].
    apply int_truediv_division in H as [[_ H]|[H _]]; discriminate.
Qed.

Lemma read_legs_extends f l : forall acc out,
  fold_each (read_leg f) l acc = Ok out ->
  exists new, out = (acc ++ new)%list.
Proof.
  induction l as [|i l IH]; simpl; intros acc out H.
  - injection H as <-. exists []. now rewrite app_nil_r.
  - apply bind_Ok in H as (mid & Hmid & H).
    destruct (IH _ _ H) as (new & ->).
    unfold read_leg in Hmid.
    destruct (truthy _ && truthy _ && truthy _).
    + apply bind_Ok in Hmid as (odds & _ & Hmid). injection Hmid as <-.
      rewrite <- app_assoc. eauto.
    + injection Hmid as <-. eauto.
Qed.

Lemma read_legs_contains f l i a : forall acc out,
  fold_each (read_leg f) l acc = Ok out ->
  In i l ->
  truthy (f !! leg_field i "_matchup")
  && truthy (f !! leg_field i "_bet")
  && truthy (f !! leg_field i "_odds") = true ->
  int_of_string (default "" (f !! leg_field i "_odds")) = Ok a ->
  exists r, In r out /\ ld_american_odds r = a.
Proof.
  induction l as [|j l IH]; simpl; intros acc out H Hin Hc Ha; [contradiction|].
  apply bind_Ok in H as (mid & Hmid & H).
  destruct Hin as [->|Hin]; [|eapply IH; eauto].
  unfold read_leg in Hmid. rewrite Hc, Ha in Hmid. simpl in Hmid.
  injection Hmid as <-.
  destruct (read_legs_extends _ _ _ _ H) as (new & ->).
  eexists. split;
    [apply in_or_app; left; apply in_or_app; right; left; reflexivity
    |reflexivity].
Qed.

Lemma stored_leg_odds (rows : list leg_data) (legs : list BetLeg.t) r :
  Forall2 (fun r l => BetLeg.american_odds l = ld_american_odds r) rows legs ->
  In r rows ->
  exists l, In l legs /\ BetLeg.american_odds l = ld_american_odds r.
Proof.
  induction 1 as [|r0 l0 rows legs H0 _ IH]; simpl; [contradiction|].
  intros [->|Hin]; [eauto|].
  destruct (IH Hin) as (l & Hl & E). eauto.
Qed.

(** X23.  Odds of 0 are not refused when a bet is created.  On a database
    whose legs all belong to stored bets, an accepted request with a
    complete leg whose odds read as the integer 0 stores an OPEN bet for
    which the dashboard entry cannot be computed: it fails with the
    division by zero of [american_to_decimal], or with the overflow of an
    earlier leg. *)
Theorem new_bet_accepts_zero_odds now f db leg_count i bet_id db' :
  legs_reference_bets db ->
  (match f !! "leg_count" with
   | Some s => int_of_string s
   | None => Ok 0
   end) = Ok leg_count ->
  0 <= i < leg_count ->
  truthy (f !! leg_field i "_matchup")
  && truthy (f !! leg_field i "_bet")
  && truthy (f !! leg_field i "_odds") = true ->
  int_of_string (default "" (f !! leg_field i "_odds")) = Ok 0 ->
  new_bet now f db = Ok (Created bet_id db') ->
  exists bet e,
    bet_row bet_id db' = Some bet
    /\ Bet.status bet = BetStatus.OPEN
    /\ open_bet_entry bet db' = Raise e
    /\ (e = ZeroDivisionError \/ e = OverflowError).
Proof.
  intros Hlr Hcount Hi Hc Hz H.
  apply new_bet_Created in H
    as (n & legs_data & rows & Hn & Hlegs & _ & _ & _ & -> & ->).
  rewrite Hcount in Hn. injection Hn as <-.
  set (b := fresh_id (map Bet.id (DB.bets db))).
  destruct (insert_legs_app b legs_data (DB.bet_legs db))
    as (new_legs & Hle & Hl).
  assert (Hlb : Forall (fun l => BetLeg.bet_id l = b) new_legs).
  { clear -Hl. induction Hl as [|r l rs ls (H1 & _) _ IH]; constructor; auto. }
  assert (Hodds : Forall2 (fun r l => BetLeg.american_odds l = ld_american_odds r)
                    legs_data new_legs).
  { clear -Hl. induction Hl as [|r l rs ls (_ & _ & _ & _ & H5) _ IH];
      constructor; auto. }
  destruct (read_legs_contains f (range leg_count) i 0 [] legs_data Hlegs)
    as (r & Hr & Hr0); auto.
  { unfold range. apply in_map_iff. exists (Z.to_nat i).
    split; [lia|]. apply in_seq. lia. }
  destruct (stored_leg_odds _ _ _ Hodds Hr) as (l & Hin & El).
  destruct (potential_odds_zero new_legs) as (e & He & Hcases).
  { exists l. split; [exact Hin|]. congruence. }
  eexists _, e. unfold bet_row. simpl.
  split; [apply find_app_fresh; [apply fresh_id_not_in|reflexivity]|].
  split; [reflexivity|].
  unfold open_bet_entry, legs_of. simpl. fold b. rewrite Hle.
  rewrite (filter_app_fresh BetLeg.bet_id);
    try assumption; try (now apply references_not_fresh).
  rewrite He. auto.
Qed.

Lemma new_bet_accepts_zero_odds_witness :
  exists bet e,
    bet_row 1
      (DB.mk Sample.people
         [Bet.mk 1 1000 BetStatus.OPEN 7 None]
         [BetLeg.mk 1 1 "A v B" "A ML" 0 LegResult.PENDING]
         [BetParticipant.mk 1 1 1 1000]
         [])
    = Some bet
    /\ Bet.status bet = BetStatus.OPEN
    /\ open_bet_entry bet
         (DB.mk Sample.people
            [Bet.mk 1 1000 BetStatus.OPEN 7 None]
            [BetLeg.mk 1 1 "A v B" "A ML" 0 LegResult.PENDING]
            [BetParticipant.mk 1 1 1 1000]
            [])
       = Raise e
    /\ (e = ZeroDivisionError \/ e = OverflowError).
Proof.
  apply (new_bet_accepts_zero_odds 7
           (<["leg_0_odds" := "0"]> (Sample.new_bet_form "10" ""))
           Sample.empty 1 0 1
           (DB.mk Sample.people
              [Bet.mk 1 1000 BetStatus.OPEN 7 None]
              [BetLeg.mk 1 1 "A v B" "A ML" 0 LegResult.PENDING]
              [BetParticipant.mk 1 1 1 1000]
              [])).
  - constructor.
  - vm_compute. reflexivity.
  - lia.
  - vm_compute. reflexivity.
  - vm_compute. reflexivity.
  - vm_compute. reflexivity.
Defined.

(* ===================================================================== *)
(** * new_bet: how it can fail                                            *)
(* ===================================================================== *)




